(** * Panther compilation driver: token buffer, task scheduler, diagnostics

    A shallow embedding of
      - [Panther/include/TokenBuffer.h]
      - [Panther/src/Context.cpp]
      - [Panther/src/default_diagnostic_callback.cpp]
    together with the properties the driver specification states about them.

    Conventions.
      - Unsigned machine integers are [N]; where the source can wrap, the
        wrap-around is written out with [mod].
      - [std::vector] is [list]; indexed access is stdpp's lookup [!!] and
        indexed replacement is stdpp's insert.
      - A function of the source that can trip a [debugAssert], index a
        container out of range, or loop, returns a [result]. *)

From Stdlib Require Import NArith ZArith Lia Ascii String DecimalString.
From stdpp Require Import base option list relations strings.

(** ** Outcomes of fallible code *)

(** [ContractViolation] is a tripped [evo::debugAssert] or an access the
    source leaves undefined; [Terminated] is an exception that leaves a
    [noexcept] function, which ends the process; [OutOfFuel] is only ever
    produced by the fuel of a loop model and is shown unreachable where a
    claim needs a result. *)
Inductive result (A : Type) : Type :=
| Ok (a : A)
| ContractViolation
| OutOfFuel
| Terminated.
Arguments Ok {A} a.
Arguments ContractViolation {A}.
Arguments OutOfFuel {A}.
Arguments Terminated {A}.

#[global] Instance result_ret : MRet result := fun A a => Ok a.

#[global] Instance result_bind : MBind result := fun A B k r =>
  match r with
  | Ok a => k a
  | ContractViolation => ContractViolation
  | OutOfFuel => OutOfFuel
  | Terminated => Terminated
  end.

(** [debugAssert(cond, ...)] *)
Definition debugAssert (cond : bool) : result unit :=
  if cond then Ok tt else ContractViolation.

(** ** Source locations (shared by tokens and diagnostics) *)

(** [SourceID] is the position of a source in the manager's vector. *)
Definition SourceID := nat.

(** The fields are [uint32_t] in the source: [print_location] iterates over
    them with a [uint32_t] counter. *)
Record Location := mkLocation {
  sourceID : SourceID;
  lineStart : N;
  collumnStart : N;
  lineEnd : N;
  collumnEnd : N
}.

Definition two32 : N := 4294967296.
Definition two64 : N := 18446744073709551616.

(** * TokenBuffer.h *)
Module TokenBuf.

(** [Token::Kind] is an enum of [Token.h]; only its identity matters here. *)
Definition Kind := N.

(** [Token::ID] wraps a [uint32_t]. *)
Definition TokenID := N.

(** The payload of a token. A [float64_t] is carried as its 64 bit pattern,
    a string as the index of its cell in [string_literals] (the cell is a
    [std::unique_ptr<std::string>], so the index stands for the stable
    address). *)
Inductive Payload :=
| PNone
| PBool (b : bool)
| PInteger (v : N)
| PFloat (bits : N)
| PString (cell : nat).

Record Token := mkToken {
  kind : Kind;
  location : Location;
  value : Payload
}.

Record TokenBuffer := mkTokenBuffer {
  tokens : list Token;
  string_literals : list string;
  is_locked : bool
}.

(** [TokenBuffer() = default] *)
Definition empty : TokenBuffer := mkTokenBuffer [] [] false.

(** [TokenBuffer(TokenBuffer&& rhs)]: the vectors are moved, the flag is
    copied. Returns the new buffer and what is left of [rhs]. *)
Definition move_construct (rhs : TokenBuffer) : TokenBuffer * TokenBuffer :=
  (mkTokenBuffer (tokens rhs) (string_literals rhs) (is_locked rhs),
   mkTokenBuffer [] [] (is_locked rhs)).

(** [size()] *)
Definition size (b : TokenBuffer) : nat := length (tokens b).

(** [begin()] and [end()]: the identifiers of the first token and one past
    the last, the latter through [uint32_t(tokens.size())]. *)
Definition begin_ (b : TokenBuffer) : TokenID := 0%N.
Definition end_ (b : TokenBuffer) : TokenID := (N.of_nat (size b) mod two32)%N.

(** [lock()] *)
Definition lock (b : TokenBuffer) : TokenBuffer :=
  mkTokenBuffer (tokens b) (string_literals b) true.

(** [isLocked()] *)
Definition isLocked (b : TokenBuffer) : bool := is_locked b.

Inductive Error := BufferLocked.

(** Modelled from the spec: the bodies of the five [createToken] overloads
    live in [TokenBuffer.cpp], which is not part of the sources at hand.
    The specification says: "create_token(kind, location[, payload]) ->
    TokenID", the buffer is an "ordered sequence of Tokens (indices =
    TokenIDs)", and after [lock()] a "subsequent create_token is a contract
    violation (fail with BufferLocked in checked builds)". *)
Definition push_token (b : TokenBuffer) (t : Token)
  : Error + (TokenBuffer * TokenID) :=
  if is_locked b then inl BufferLocked
  else inr (mkTokenBuffer (tokens b ++ [t]) (string_literals b) (is_locked b),
            (N.of_nat (length (tokens b)) mod two32)%N).

Definition createToken (b : TokenBuffer) (k : Kind) (loc : Location) :=
  push_token b (mkToken k loc PNone).
Definition createToken_bool (b : TokenBuffer) (k : Kind) (loc : Location) (v : bool) :=
  push_token b (mkToken k loc (PBool v)).
Definition createToken_u64 (b : TokenBuffer) (k : Kind) (loc : Location) (v : N) :=
  push_token b (mkToken k loc (PInteger (v mod two64)%N)).
Definition createToken_f64 (b : TokenBuffer) (k : Kind) (loc : Location) (bits : N) :=
  push_token b (mkToken k loc (PFloat (bits mod two64)%N)).

(** Modelled from the spec: "for the string overload, the buffer takes
    ownership of the byte sequence and stores it such that its address is
    stable across further appends ... The Token stores a reference to that
    storage." *)
Definition createToken_string (b : TokenBuffer) (k : Kind) (loc : Location) (s : string)
  : Error + (TokenBuffer * TokenID) :=
  if is_locked b then inl BufferLocked
  else inr (mkTokenBuffer
              (tokens b ++ [mkToken k loc (PString (length (string_literals b)))])
              (string_literals b ++ [s])
              (is_locked b),
            (N.of_nat (length (tokens b)) mod two32)%N).

(** The operations a holder of a buffer can perform on it, for talking
    about arbitrary later use of a buffer. *)
Inductive Op :=
| OpCreate (k : Kind) (loc : Location)
| OpCreateBool (k : Kind) (loc : Location) (v : bool)
| OpCreateU64 (k : Kind) (loc : Location) (v : N)
| OpCreateF64 (k : Kind) (loc : Location) (bits : N)
| OpCreateString (k : Kind) (loc : Location) (s : string)
| OpLock
| OpMove.

Definition is_create (o : Op) : bool :=
  match o with
  | OpLock | OpMove => false
  | _ => true
  end.

(** What an operation reports: a token identifier, a rejected append, or
    nothing ([lock()] returns [void], a move yields the new object). *)
Inductive Reply :=
| Created (id : TokenID)
| Rejected (e : Error)
| Done.

Definition settle (b : TokenBuffer) (r : Error + (TokenBuffer * TokenID))
  : TokenBuffer * Reply :=
  match r with
  | inl e => (b, Rejected e)
  | inr (b', id) => (b', Created id)
  end.

(** One operation on the buffer being followed. After [OpMove] the buffer
    followed is the newly constructed one. *)
Definition step (b : TokenBuffer) (o : Op) : TokenBuffer * Reply :=
  match o with
  | OpCreate k loc => settle b (createToken b k loc)
  | OpCreateBool k loc v => settle b (createToken_bool b k loc v)
  | OpCreateU64 k loc v => settle b (createToken_u64 b k loc v)
  | OpCreateF64 k loc v => settle b (createToken_f64 b k loc v)
  | OpCreateString k loc s => settle b (createToken_string b k loc s)
  | OpLock => (lock b, Done)
  | OpMove => (fst (move_construct b), Done)
  end.

(** Runs a sequence of operations; returns the final buffer and, per
    operation, the buffer it left behind and its reply. *)
Fixpoint run (b : TokenBuffer) (ops : list Op) : TokenBuffer * list (Op * TokenBuffer * Reply) :=
  match ops with
  | [] => (b, [])
  | o :: rest =>
      let '(b1, r) := step b o in
      let '(b2, log) := run b1 rest in
      (b2, (o, b1, r) :: log)
  end.

End TokenBuf.

(** * Context.cpp *)
Module Driver.

(** ** Diagnostics *)

Inductive Level := Fatal | Error | Warning | Info.

(** [Diagnostic::Code]: the two codes [Context.cpp] emits, and the rest of
    the enum by number. *)
Inductive Code :=
| MiscFileDoesNotExist
| MiscLoadFileFailed
| OtherCode (n : N).

Record DiagnosticInfo := mkInfo {
  info_message : string;
  info_location : option Location
}.

Record Diagnostic := mkDiagnostic {
  level : Level;
  code : Code;
  location : option Location;
  message : string;
  infos : list DiagnosticInfo
}.

#[global] Instance Level_eq_dec : EqDecision Level.
Proof. solve_decision. Defined.
#[global] Instance Code_eq_dec : EqDecision Code.
Proof. solve_decision. Defined.

Definition is_error_level (l : Level) : bool :=
  match l with
  | Fatal | Error => true
  | Warning | Info => false
  end.

(** ** Sources and tasks *)

Record Source := mkSource {
  id : SourceID;
  path : string;
  data : string;
  token_buffer : TokenBuf.TokenBuffer
}.

Definition getID (s : Source) : SourceID := id s.

Inductive Task :=
| LoadFileTask (path : string)
| TokenizeFileTask (source_id : SourceID).

(** ** The context *)

Record Config := mkConfig {
  numThreads : N;
  maxNumErrors : N
}.

(** The members of [Context] that [Context.cpp] reads or writes.
    [workers] is the size of the worker vector, [delivered] lists what the
    diagnostic callback has been invoked with (oldest first), and
    [shutdown_helpers] counts the detached threads spawned to run
    [shutdownThreads]. The widths of the counters are declared in
    [Context.h]; they are unbounded here. *)
Record Context := mkContext {
  config : Config;
  workers : nat;
  shutting_down_threads : bool;
  tasks : list Task;
  src_manager : list Source;
  num_errors : N;
  hit_fail_condition : bool;
  task_group_running : bool;
  delivered : list Diagnostic;
  shutdown_helpers : nat
}.

Definition set_tasks (ts : list Task) (c : Context) : Context :=
  mkContext (config c) (workers c) (shutting_down_threads c) ts
    (src_manager c) (num_errors c) (hit_fail_condition c)
    (task_group_running c) (delivered c) (shutdown_helpers c).

Definition set_src_manager (ss : list Source) (c : Context) : Context :=
  mkContext (config c) (workers c) (shutting_down_threads c) (tasks c)
    ss (num_errors c) (hit_fail_condition c)
    (task_group_running c) (delivered c) (shutdown_helpers c).

Definition set_num_errors (n : N) (c : Context) : Context :=
  mkContext (config c) (workers c) (shutting_down_threads c) (tasks c)
    (src_manager c) n (hit_fail_condition c)
    (task_group_running c) (delivered c) (shutdown_helpers c).

Definition set_hit_fail_condition (b : bool) (c : Context) : Context :=
  mkContext (config c) (workers c) (shutting_down_threads c) (tasks c)
    (src_manager c) (num_errors c) b
    (task_group_running c) (delivered c) (shutdown_helpers c).

Definition set_task_group_running (b : bool) (c : Context) : Context :=
  mkContext (config c) (workers c) (shutting_down_threads c) (tasks c)
    (src_manager c) (num_errors c) (hit_fail_condition c)
    b (delivered c) (shutdown_helpers c).

Definition set_delivered (ds : list Diagnostic) (c : Context) : Context :=
  mkContext (config c) (workers c) (shutting_down_threads c) (tasks c)
    (src_manager c) (num_errors c) (hit_fail_condition c)
    (task_group_running c) ds (shutdown_helpers c).

Definition set_shutdown_helpers (n : nat) (c : Context) : Context :=
  mkContext (config c) (workers c) (shutting_down_threads c) (tasks c)
    (src_manager c) (num_errors c) (hit_fail_condition c)
    (task_group_running c) (delivered c) n.

(** [Context::Context]: the constructor asserts a positive error budget. *)
Definition new_Context (cfg : Config) : result Context :=
  _ ← debugAssert (0 <? maxNumErrors cfg)%N;
  Ok (mkContext cfg 0 false [] [] 0%N false false [] 0).

(** Modelled from the spec: [isSingleThreaded], [isMultiThreaded] and
    [hasHitFailCondition] are inline members of [Context.h]. "num_threads
    (0 => single-threaded, else pool size)". *)
Definition isSingleThreaded (c : Context) : bool := (numThreads (config c) =? 0)%N.
Definition isMultiThreaded (c : Context) : bool := negb (isSingleThreaded c).
Definition hasHitFailCondition (c : Context) : bool := hit_fail_condition c.

(** [Context::threadsRunning] *)
Definition threadsRunning (c : Context) : result bool :=
  _ ← debugAssert (isMultiThreaded c);
  if bool_decide (workers c = 0) then Ok false
  else Ok (negb (shutting_down_threads c)).

(** ** The source manager *)

(** Modelled from the spec: [SourceManager] is declared in a header that is
    not part of the sources at hand. "reserve(n): hint that n sources will
    be added"; "add_source(path, data) -> SourceID: appends a new Source
    with a default-constructed empty TokenBuffer, returns the newly
    assigned ID", where "id = insertion_index"; "get(id) -> Source
    reference". *)
Definition reserveSources (n : nat) (ss : list Source) : list Source := ss.

Definition addSource (p d : string) (ss : list Source) : list Source * SourceID :=
  (ss ++ [mkSource (length ss) p d TokenBuf.empty], length ss).

Definition getSource (ss : list Source) (i : SourceID) : option Source := ss !! i.

(** ** The file system *)

(** What [evo::fs] answers for a path: [exists] is false; [open] fails;
    [read] fails; or the file's contents. *)
Inductive FileStatus :=
| Missing
| OpenFails
| ReadFails
| Readable (contents : string).

Class FileSystem := fs_status : string -> FileStatus.

(** ** What [Context.h] and [Tokenizer.h] provide *)

(** [emit_diagnostic_internal] and [emitTrace] are members of [Context]
    defined in its header, [Tokenizer] is a class of its own; none of the
    three is among the sources at hand. They are taken as parameters with
    the signatures their call sites show: each receives the context by
    reference. *)
Class Header := {
  emit_diagnostic_internal :
    Level -> Code -> option Location -> string -> Context -> Context;
  emitTrace : string -> Context -> Context
}.

(** [Tokenizer(context, source_id).tokenize()], an [evo::Result<TokenBuffer>]. *)
Class Tokenizer := tokenize : Context -> SourceID -> Context * option TokenBuf.TokenBuffer.

(** ** Diagnostics delivery *)

(** [Context::emit_diagnostic_impl]: one call of the callback, under the
    callback mutex. The callback receives the context as [const]. *)
Definition emit_diagnostic_impl (d : Diagnostic) (c : Context) : Context :=
  set_delivered (delivered c ++ [d]) c.

(** [Context::notify_task_errored] *)
Definition notify_task_errored (c : Context) : Context :=
  let c1 :=
    if (maxNumErrors (config c) <=? num_errors c)%N
    then set_hit_fail_condition true c else c in
  if hasHitFailCondition c1 && isMultiThreaded c1
  then set_shutdown_helpers (S (shutdown_helpers c1)) c1
  else c1.

(** ** Task handlers *)

Definition dquote : string := String "034"%char EmptyString.

(** [std::format("File \"{}\" does not exist", path)] *)
Definition msg_does_not_exist (p : string) : string :=
  "File " +:+ dquote +:+ p +:+ dquote +:+ " does not exist".

(** [std::format("Failed to load file: \"{}\"", path)] *)
Definition msg_load_failed (p : string) : string :=
  "Failed to load file: " +:+ dquote +:+ p +:+ dquote.

(** The first argument of [emitTrace("Loaded file: \"{}\"", path)], formatted. *)
Definition msg_loaded (p : string) : string :=
  "Loaded file: " +:+ dquote +:+ p +:+ dquote.

(** [emitTrace("Tokenized file: \"{}\"", source.getLocationAsString())] *)
Definition msg_tokenized (p : string) : string :=
  "Tokenized file: " +:+ dquote +:+ p +:+ dquote.

(** [Source::getLocationAsString], of the absent [Source.h]: the path as a
    string. *)
Definition getLocationAsString (s : Source) : string := path s.

Section Handlers.
Context `{FS : FileSystem} `{H : Header} `{T : Tokenizer}.

(** The failure branch shared by the three error exits of
    [run_load_file]: count, emit, return [false]. *)
Definition load_failure (cd : Code) (msg : string) (c : Context) : Context * bool :=
  let c1 := set_num_errors (num_errors c + 1)%N c in
  (emit_diagnostic_internal Error cd None msg c1, false).

(** [Context::Worker::run_load_file] *)
Definition run_load_file (p : string) (c : Context) : Context * bool :=
  match fs_status p with
  | Missing => load_failure MiscFileDoesNotExist (msg_does_not_exist p) c
  | OpenFails => load_failure MiscLoadFileFailed (msg_load_failed p) c
  | ReadFails => load_failure MiscLoadFileFailed (msg_load_failed p) c
  | Readable contents =>
      let c1 := emitTrace (msg_loaded p) c in
      (set_src_manager (fst (addSource p contents (src_manager c1))) c1, true)
  end.

(** [Context::Worker::run_tokenize_file]. [getSource] on an identifier
    the manager does not hold is outside its contract. *)
Definition run_tokenize_file (sid : SourceID) (c : Context) : result (Context * bool) :=
  let '(c1, res) := tokenize c sid in
  match res with
  | None => Ok (c1, false)
  | Some tb =>
      match getSource (src_manager c1) sid with
      | None => ContractViolation
      | Some source =>
          let installed :=
            mkSource (id source) (path source) (data source)
                     (fst (TokenBuf.move_construct tb)) in
          let c2 := set_src_manager (<[sid := installed]> (src_manager c1)) c1 in
          Ok (emitTrace (msg_tokenized (getLocationAsString installed)) c2, true)
      end
  end.

(** The [task.visit] of [run_task]: the handler of the task's variant. *)
Definition visit (t : Task) (c : Context) : result (Context * bool) :=
  match t with
  | LoadFileTask p => Ok (run_load_file p c)
  | TokenizeFileTask sid => run_tokenize_file sid c
  end.

(** [Context::Worker::run_task] *)
Definition run_task (t : Task) (c : Context) : result Context :=
  visit t c ≫= fun '((c1, run_task_res) : Context * bool) =>
  if run_task_res then Ok c1 else Ok (notify_task_errored c1).

(** A [Worker]: its [is_working] flag. *)
Record Worker := mkWorker { is_working : bool }.

(** [Context::Worker::get_task_single_threaded] *)
Definition get_task_single_threaded (w : Worker) (c : Context) : result (Worker * Context) :=
  _ ← debugAssert (isSingleThreaded c);
  c1 ← match tasks c with
       | [] => Ok c
       | task :: rest => run_task task (set_tasks rest c)
       end;
  Ok (mkWorker false, c1).

(** The [while] loop of [consume_tasks_single_threaded]; every iteration
    spends one unit of [fuel]. *)
Fixpoint consume_loop (fuel : nat) (w : Worker) (c : Context) : result (Worker * Context) :=
  if negb (bool_decide (tasks c = [])) && negb (hasHitFailCondition c) then
    match fuel with
    | 0 => OutOfFuel
    | S fuel' =>
        get_task_single_threaded w c ≫= fun '((w1, c1) : Worker * Context) =>
        consume_loop fuel' w1 c1
    end
  else Ok (w, c).

(** [Context::consume_tasks_single_threaded] *)
Definition consume_tasks_single_threaded (fuel : nat) (c : Context) : result Context :=
  _ ← debugAssert (isSingleThreaded c);
  consume_loop fuel (mkWorker false) c ≫= fun '((_, c1) : Worker * Context) =>
  Ok (set_task_group_running false c1).

(** [Context::loadFiles]. In multi-threaded mode the tasks are left to
    the pool. *)
Definition loadFiles (fuel : nat) (file_paths : list string) (c : Context) : result Context :=
  running ← (if isSingleThreaded c then Ok true else threadsRunning c);
  _ ← debugAssert running;
  _ ← debugAssert (negb (task_group_running c));
  let c1 := set_task_group_running true c in
  let c2 := set_src_manager (reserveSources (length file_paths) (src_manager c1)) c1 in
  let c3 := set_tasks (tasks c2 ++ map LoadFileTask file_paths) c2 in
  if isSingleThreaded c3 then consume_tasks_single_threaded fuel c3 else Ok c3.

(** [Context::tokenizeLoadedFiles] *)
Definition tokenizeLoadedFiles (fuel : nat) (c : Context) : result Context :=
  _ ← debugAssert (negb (task_group_running c));
  let c1 := set_task_group_running true c in
  let c2 := set_tasks (tasks c1 ++ map (fun s => TokenizeFileTask (getID s)) (src_manager c1)) c1 in
  if isSingleThreaded c2 then consume_tasks_single_threaded fuel c2 else Ok c2.

End Handlers.

(** ** Assumptions on the absent collaborators *)

(** [c'] differs from [c] at most in the error count, the fail flag, the
    delivered diagnostics and the spawned helpers. *)
Definition same_schedule (c c' : Context) : Prop :=
  config c' = config c /\ workers c' = workers c
  /\ shutting_down_threads c' = shutting_down_threads c
  /\ tasks c' = tasks c /\ src_manager c' = src_manager c
  /\ task_group_running c' = task_group_running c.

(** [emit_diagnostic_internal] builds the diagnostic from its arguments
    and hands it to [emit_diagnostic_impl]; the callers in [Context.cpp]
    count the error themselves before they call it. [emitTrace] only
    delivers diagnostics, none of them at an error level. *)
Record HeaderLaws `{H : Header} : Prop := {
  emit_internal_forwards : forall l cd loc m c,
    emit_diagnostic_internal l cd loc m c
    = emit_diagnostic_impl (mkDiagnostic l cd loc m []) c;
  emitTrace_only_reports : forall m c, exists ds,
    emitTrace m c = set_delivered (delivered c ++ ds) c
    /\ Forall (fun d => is_error_level (level d) = false) ds
}.

(** The tokenizer is "pure w.r.t. external state except diagnostics it
    emits through the Driver": it leaves the queue, the sources and the
    configuration alone, and it never lowers the fail flag. *)
Record TokenizerLaws `{T : Tokenizer} : Prop := {
  tokenize_frame : forall c sid, same_schedule c (fst (tokenize c sid));
  tokenize_keeps_fail : forall c sid,
    hit_fail_condition c = true -> hit_fail_condition (fst (tokenize c sid)) = true
}.

(** Modelled from the spec: the emit path the tokenizer reaches through the
    driver is declared in [Context.h], which is not among the sources. It
    "increments num_errors when level is Fatal or Error and, on reaching
    the ceiling, raises the fail condition", and delivers the diagnostic. *)
Definition emit_counted (d : Diagnostic) (c : Context) : Context :=
  if is_error_level (level d)
  then notify_task_errored
         (emit_diagnostic_impl d (set_num_errors (num_errors c + 1)%N c))
  else emit_diagnostic_impl d c.

(** Modelled from the spec: the tokenizer is not among the sources. "On
    tokenizer error: return failure (tokenizer is responsible for emitting
    its own diagnostics)", and every diagnostic of level Fatal or Error
    emitted through the driver raises [num_errors] by one: a tokenizer that
    returns an error has counted at least one. *)
Definition reports_its_failure `{T : Tokenizer} : Prop :=
  forall c sid,
    snd (tokenize c sid) = None ->
    (num_errors c + 1 <= num_errors (fst (tokenize c sid)))%N.

(** A tokenizer run adds at most one to the error count, and nothing when
    it succeeds. *)
Definition counts_own_failure `{T : Tokenizer} : Prop :=
  forall c sid,
    num_errors (fst (tokenize c sid)) = num_errors c
    \/ (snd (tokenize c sid) = None
        /\ num_errors (fst (tokenize c sid)) = (num_errors c + 1)%N).

(** "The tokenizer is a deterministic function of the source bytes." *)
Definition deterministic `{T : Tokenizer} : Prop :=
  forall c c' sid s s',
    getSource (src_manager c) sid = Some s ->
    getSource (src_manager c') sid = Some s' ->
    data s = data s' ->
    snd (tokenize c sid) = snd (tokenize c' sid).

(** The source [s], held at position [i], carries the buffer the tokenizer
    produces for its bytes, if it produces one. *)
Definition settled `{T : Tokenizer} (i : SourceID) (s : Source) : Prop :=
forall c s' tb,
  getSource (src_manager c) i = Some s' ->
  data s' = data s ->
  snd (tokenize c i) = Some tb ->
  token_buffer s = fst (TokenBuf.move_construct tb).

(** ** Runs in single-threaded mode *)

(** [SourceID]s are positions: what [addSource] establishes. *)
Definition ids_are_positions (ss : list Source) : Prop :=
  forall i s, ss !! i = Some s -> id s = i.

(** A queued task is within the contract of its handler: a tokenize task
    names a source the manager holds. *)
Definition task_in_range (c : Context) (t : Task) : Prop :=
  match t with
  | LoadFileTask _ => True
  | TokenizeFileTask sid => sid < length (src_manager c)
  end.

(** The observable moves of a single-threaded context: a stage entry point
    marks the group running and enqueues its tasks, the drain runs one
    task per iteration while the queue is non-empty and no fail condition
    is up, and clears the flag at its end. *)
Inductive step `{FS : FileSystem} `{H : Header} `{T : Tokenizer} : Context -> Context -> Prop :=
| step_enqueue_loads (c : Context) (file_paths : list string) :
    task_group_running c = false ->
    step c (set_tasks (tasks c ++ map LoadFileTask file_paths)
              (set_src_manager (reserveSources (length file_paths) (src_manager c))
                 (set_task_group_running true c)))
| step_enqueue_tokenize (c : Context) :
    task_group_running c = false ->
    step c (set_tasks (tasks c ++ map (fun s => TokenizeFileTask (getID s)) (src_manager c))
              (set_task_group_running true c))
| step_task (c c' : Context) (w w' : Worker) :
    tasks c <> [] ->
    hasHitFailCondition c = false ->
    get_task_single_threaded w c = Ok (w', c') ->
    step c c'
| step_drained (c : Context) :
    step c (set_task_group_running false c).

(** The error budget is respected and, once spent, the fail flag is up. *)
Definition within_budget (c : Context) : Prop :=
  (num_errors c <= maxNumErrors (config c))%N
  /\ ((maxNumErrors (config c) <= num_errors c)%N -> hit_fail_condition c = true).

(** What [read] returns for a readable path. *)
Definition file_contents `{FS : FileSystem} (p : string) : string :=
match fs_status p with
| Readable contents => contents
| _ => EmptyString
end.

Definition is_readable `{FS : FileSystem} (p : string) : bool :=
match fs_status p with
| Readable _ => true
| _ => false
end.

(** The code [run_load_file] reports for a path it cannot load. *)
Definition load_failure_code `{FS : FileSystem} (p : string) : Code :=
match fs_status p with
| Missing => MiscFileDoesNotExist
| _ => MiscLoadFileFailed
end.

Definition load_failure_message `{FS : FileSystem} (p : string) : string :=
match fs_status p with
| Missing => msg_does_not_exist p
| _ => msg_load_failed p
end.

(** The diagnostics at level [Fatal] or [Error] among those delivered. *)
Definition errors_of (ds : list Diagnostic) : list Diagnostic :=
List.filter (fun d => is_error_level (level d)) ds.

(** The property the propagation rule of the specification asks of a task
    [t] run from [c]: if its handler reports failure, the error count has
    gone up by at least one once [run_task] is through. *)
Definition failure_is_counted `{FS : FileSystem} `{H : Header} `{T : Tokenizer}
           (t : Task) (c : Context) : Prop :=
  forall c1 c2,
    visit t c = Ok (c1, false) ->
    run_task t c = Ok c2 ->
    (num_errors c + 1 <= num_errors c2)%N.

(** ** The rest of [Context.cpp] that runs on one thread *)

(** [Context::optimalNumThreads]: [std::thread::hardware_concurrency() - 1]
    in [unsigned] arithmetic; the argument is what [hardware_concurrency]
    returns. *)
Definition optimalNumThreads (hardware_concurrency : N) : N :=
((hardware_concurrency + two32 - 1) mod two32)%N.

Section WorkerThread.
Context `{FS : FileSystem} `{H : Header} `{T : Tokenizer}.

(** [Context::Worker::get_task], one call by one worker with no other
    thread in between: the queue is popped under [tasks_mutex], the task is
    run after the mutex is released, and an idle worker sleeps. *)
Definition get_task (w : Worker) (c : Context) : result (Worker * Context) :=
_ ← debugAssert (isMultiThreaded c);
match tasks c with
| [] => Ok (mkWorker false, set_task_group_running false c)
| task :: rest =>
    c1 ← run_task task (set_tasks rest c);
    Ok (mkWorker true, c1)
end.

End WorkerThread.

(** ** Vocabulary for the outcome of a load stage *)

(** The sources a list of paths yields, the first at position [base]: one
    per readable path, in the order of the paths. *)
Fixpoint loaded_from `{FS : FileSystem} (base : nat) (file_paths : list string) : list Source :=
match file_paths with
| [] => []
| p :: rest =>
    if is_readable p
    then mkSource base p (file_contents p) TokenBuf.empty :: loaded_from (S base) rest
    else loaded_from base rest
end.

(** The error diagnostics a list of paths yields: one per path that cannot
    be loaded, in the order of the paths. *)
Fixpoint load_errors `{FS : FileSystem} (file_paths : list string) : list Diagnostic :=
match file_paths with
| [] => []
| p :: rest =>
    if is_readable p then load_errors rest
    else mkDiagnostic Error (load_failure_code p) None (load_failure_message p) []
           :: load_errors rest
end.

(** The number of paths that cannot be loaded. *)
Definition failures `{FS : FileSystem} (file_paths : list string) : N :=
N.of_nat (length (load_errors file_paths)).

(** [s'] is the source [s] with possibly another token buffer. *)
Definition same_file (s s' : Source) : Prop :=
id s' = id s /\ path s' = path s /\ data s' = data s.

End Driver.

(** * default_diagnostic_callback.cpp *)
Module Render.
Import Driver.

(** The methods of [core::Printer] the callback uses; a call is recorded
    as the method and the text it was given. *)
Inductive PrinterMethod :=
| printFatal | printError | printWarning | printInfo | printGray | printCyan.

Definition PrintCall : Type := PrinterMethod * string.

Definition LF : ascii := "010"%char.
Definition CR : ascii := "013"%char.
Definition TAB : ascii := "009"%char.
Definition SPACE : ascii := " "%char.
Definition NUL : ascii := "000"%char.

(** [source.getData()[i]] on a [std::string]: the byte at [i], and the
    terminating zero at [i = size()]. Beyond that the source is undefined;
    [find_line] never gets there in a checked build. *)
Definition char_at (bytes : list ascii) (i : nat) : ascii := default NUL (bytes !! i).

(** [std::to_string] of an unsigned number *)
Definition to_string (n : N) : string := NilZero.string_of_uint (N.to_uint n).

(** The position in the source text and the indices of the bytes read so
    far, in the order of the reads. *)
Record Scan := mkScan {
  cursor : nat;
  reads : list nat
}.

(** "find line in the source code": the first loop of [print_location].
    [current_line] is a [size_t] that never exceeds the number of bytes. *)
Fixpoint find_line (fuel : nat) (bytes : list ascii) (line_start : N)
         (current_line : N) (s : Scan) : result Scan :=
  if (current_line <? line_start)%N then
    match fuel with
    | 0 => OutOfFuel
    | S fuel' =>
        _ ← debugAssert (bool_decide (cursor s < length bytes));
        let c := cursor s in
        if Ascii.eqb (char_at bytes c) LF then
          find_line fuel' bytes line_start (current_line + 1)%N
                    (mkScan (c + 1) (reads s ++ [c]))
        else if Ascii.eqb (char_at bytes c) CR then
          let c' := if Ascii.eqb (char_at bytes (c + 1)) LF then c + 1 else c in
          find_line fuel' bytes line_start (current_line + 1)%N
                    (mkScan (c' + 1) (reads s ++ [c; c; c + 1]))
        else
          find_line fuel' bytes line_start current_line
                    (mkScan (c + 1) (reads s ++ [c; c]))
    end
  else Ok s.

(** The state of the second loop. [point_collumn] is a [size_t]. *)
Record LineScan := mkLineScan {
  scan : Scan;
  line_str : list ascii;
  point_collumn : N;
  remove_whitespace : bool
}.

(** The reads of one evaluation of the loop condition
    [data[cursor] != '\n' && data[cursor] != '\r' && cursor < size]. *)
Definition condition_reads (bytes : list ascii) (c : nat) : list nat :=
  if Ascii.eqb (char_at bytes c) LF then [c] else [c; c].

(** The reads of [remove_whitespace && (data[cursor] == '\t' || data[cursor] == ' ')]. *)
Definition whitespace_reads (bytes : list ascii) (rw : bool) (c : nat) : list nat :=
  if rw then (if Ascii.eqb (char_at bytes c) TAB then [c] else [c; c]) else [].

(** "get actual line and remove leading whitespace": the second loop. *)
Fixpoint get_line (fuel : nat) (bytes : list ascii) (st : LineScan) : result LineScan :=
  let c := cursor (scan st) in
  let ch := char_at bytes c in
  let rd := reads (scan st) ++ condition_reads bytes c in
  if negb (Ascii.eqb ch LF) && negb (Ascii.eqb ch CR) && bool_decide (c < length bytes) then
    match fuel with
    | 0 => OutOfFuel
    | S fuel' =>
        let rd1 := rd ++ whitespace_reads bytes (remove_whitespace st) c in
        if remove_whitespace st && (Ascii.eqb ch TAB || Ascii.eqb ch SPACE) then
          get_line fuel' bytes
            (mkLineScan (mkScan (c + 1) rd1) (line_str st)
                        ((point_collumn st + two64 - 1) mod two64)%N
                        (remove_whitespace st))
        else
          get_line fuel' bytes
            (mkLineScan (mkScan (c + 1) (rd1 ++ [c])) (line_str st ++ [ch])
                        (point_collumn st) false)
    end
  else Ok (mkLineScan (mkScan c rd) (line_str st) (point_collumn st) (remove_whitespace st)).

(** Both loops, from the top of the source text. *)
Definition scan_source (bytes : list ascii) (loc : Location) : result LineScan :=
  s ← find_line (S (length bytes)) bytes (lineStart loc) 1%N (mkScan 0 []);
  get_line (S (length bytes)) bytes (mkLineScan s [] (collumnStart loc) true).

(** "print pointer str": the leading blanks, [point_collumn - 1] of them
    in [size_t] arithmetic. *)
Definition pointer_indent (pc : N) : nat := N.to_nat ((pc + two64 - 1) mod two64)%N.

(** The carets of a location on one line: the [uint32_t] loop from
    [collumnStart] up to [collumnEnd + 1]. *)
Definition single_line_carets (loc : Location) : nat :=
  N.to_nat (((collumnEnd loc + 1) mod two32) - collumnStart loc)%N.

(** The mark of a location that spans lines: a caret at [point_collumn]
    and tildes up to the end of the displayed line. *)
Definition multi_line_mark (pc : N) (line : list ascii) : list ascii :=
  match N.to_nat (N.of_nat (length line) + 1 - pc)%N with
  | 0 => []
  | S n => "^"%char :: replicate n "~"%char
  end.

(** A [std::string] cannot grow to [2^63] characters: [max_size()] or the
    allocator stops it before, with [std::length_error] or [std::bad_alloc]. *)
Definition string_limit : N := 9223372036854775808.

(** The characters of the pointer line once its loops have run: the blanks,
    the carets or the caret and tildes, and the line feed. *)
Definition pointer_text (loc : Location) (pc : N) (line : list ascii) : string :=
  string_of_list_ascii
    (replicate (pointer_indent pc) SPACE
     ++ (if (lineStart loc =? lineEnd loc)%N
         then replicate (single_line_carets loc) "^"%char
         else multi_line_mark pc line)
     ++ [LF]).

(** "print pointer str". The first loop appends [point_collumn - 1] blanks,
    counted in [size_t] arithmetic; when that count is beyond what a string
    can hold, [operator+=] throws out of the [noexcept] function and the
    process ends. For a 32 bit column and a text shorter than [2^63] bytes
    the count is either below [2^32] or, once the column has wrapped, at
    least [2^63]. (The marks that follow number at most [2^32], or the
    length of the displayed line.) *)
Definition pointer_str (loc : Location) (pc : N) (line : list ascii) : result string :=
  if (string_limit <=? (pc + two64 - 1) mod two64)%N then Terminated
  else Ok (pointer_text loc pc line).

Definition level_method (l : Level) : PrinterMethod :=
  match l with
  | Fatal => printError
  | Error => printError
  | Warning => printWarning
  | Info => printInfo
  end.

Definition str1 (a : ascii) : string := String a EmptyString.

(** The first character of a printed text. *)
Definition head_char (s : string) : option ascii :=
  match s with
  | EmptyString => None
  | String a _ => Some a
  end.

(** What a printing function has sent to the printer by the time it ends,
    and how it ends. *)
Definition Run (A : Type) : Type := list PrintCall * result A.

(** One call of a printer method. *)
Definition say (m : PrinterMethod) (text : string) : Run unit := ([(m, text)], Ok tt).

(** A computation that prints nothing. *)
Definition quiet {A : Type} (r : result A) : Run A := ([], r).

(** Sequencing: what follows runs only if what comes first completes. *)
Definition and_then {A B : Type} (x : Run A) (k : A -> Run B) : Run B :=
  match snd x with
  | Ok a => (fst x ++ fst (k a), snd (k a))
  | ContractViolation => (fst x, ContractViolation)
  | OutOfFuel => (fst x, OutOfFuel)
  | Terminated => (fst x, Terminated)
  end.

(** The output of a run that completes, the way it ends otherwise. *)
Definition completed (x : Run unit) : result (list PrintCall) :=
  match snd x with
  | Ok _ => Ok (fst x)
  | ContractViolation => ContractViolation
  | OutOfFuel => OutOfFuel
  | Terminated => Terminated
  end.

(** [print_location] *)
Definition print_location (source : Source) (lvl : Level) (loc : Location)
  : result (list PrintCall) :=
  let line_number_str := to_string (lineStart loc) in
  st ← scan_source (list_ascii_of_string (data source)) loc;
  pointer ← pointer_str loc (point_collumn st) (line_str st);
  Ok [ (printGray,
        str1 TAB +:+ getLocationAsString source +:+ ":" +:+ to_string (lineStart loc)
          +:+ ":" +:+ to_string (collumnStart loc) +:+ str1 LF);
       (printGray,
        str1 TAB +:+ line_number_str +:+ " | "
          +:+ string_of_list_ascii (line_str st) +:+ str1 LF);
       (printGray,
        str1 TAB
          +:+ string_of_list_ascii (replicate (String.length line_number_str) SPACE)
          +:+ " | ");
       (level_method lvl, pointer) ].

(** [print_location] with what it has sent to the printer by the time it
    ends, however it ends: the file position is printed before the scan, the
    line and the spacer before the pointer line is built. *)
Definition print_location_run (source : Source) (lvl : Level) (loc : Location)
  : Run unit :=
  let line_number_str := to_string (lineStart loc) in
  and_then
    (say printGray
       (str1 TAB +:+ getLocationAsString source +:+ ":" +:+ to_string (lineStart loc)
          +:+ ":" +:+ to_string (collumnStart loc) +:+ str1 LF))
    (fun _ =>
  and_then (quiet (scan_source (list_ascii_of_string (data source)) loc))
    (fun st =>
  and_then
    (say printGray
       (str1 TAB +:+ line_number_str +:+ " | "
          +:+ string_of_list_ascii (line_str st) +:+ str1 LF))
    (fun _ =>
  and_then
    (say printGray
       (str1 TAB
          +:+ string_of_list_ascii (replicate (String.length line_number_str) SPACE)
          +:+ " | "))
    (fun _ =>
  and_then (quiet (pointer_str loc (point_collumn st) (line_str st)))
    (fun pointer => say (level_method lvl) pointer))))).

(** The [std::formatter] specialisations of [Diagnostic::Level] and
    [Diagnostic::Code] are part of the absent [Diagnostic.h]. *)
Class Formatters := {
  format_level : Level -> string;
  format_code : Code -> string
}.

Section Callback.
Context `{F : Formatters}.

(** [std::format("<{}|{}> {}\n", level, code, message)] *)
Definition diagnostic_message (d : Diagnostic) : string :=
  "<" +:+ format_level (level d) +:+ "|" +:+ format_code (code d) +:+ "> "
      +:+ message d +:+ str1 LF.

(** The [switch] over the level at the top of the callback: it has no
    case for [Info]. *)
Definition print_header (d : Diagnostic) : list PrintCall :=
  match level d with
  | Fatal => [(printFatal, diagnostic_message d)]
  | Error => [(printError, diagnostic_message d)]
  | Warning => [(printWarning, diagnostic_message d)]
  | Info => []
  end.

Definition print_source_location (c : Context) (lvl : Level) (loc : Location)
  : result (list PrintCall) :=
  match getSource (src_manager c) (sourceID loc) with
  | None => ContractViolation
  | Some source => print_location source lvl loc
  end.

(** The loop over [diagnostic.infos]. *)
Fixpoint print_infos (c : Context) (infs : list DiagnosticInfo) : result (list PrintCall) :=
  match infs with
  | [] => Ok []
  | info :: rest =>
      here ← match info_location info with
             | Some loc => print_source_location c Info loc
             | None => Ok []
             end;
      later ← print_infos c rest;
      Ok ((printCyan, str1 TAB +:+ "<Info> " +:+ info_message info +:+ str1 LF)
            :: here ++ later)
  end.

(** The callback [createDefaultDiagnosticCallback] returns. *)
Definition default_diagnostic_callback (c : Context) (d : Diagnostic)
  : result (list PrintCall) :=
  located ← match location d with
            | Some loc => print_source_location c (level d) loc
            | None => Ok []
            end;
  informed ← print_infos c (infos d);
  Ok (print_header d ++ located ++ informed).

(** The same callback with what it has sent to the printer by the time it
    ends, however it ends. *)
Definition print_source_location_run (c : Context) (lvl : Level) (loc : Location)
  : Run unit :=
  and_then
    (quiet (match getSource (src_manager c) (sourceID loc) with
            | None => ContractViolation
            | Some source => Ok source
            end))
    (fun source => print_location_run source lvl loc).

Fixpoint print_infos_run (c : Context) (infs : list DiagnosticInfo) : Run unit :=
  match infs with
  | [] => ([], Ok tt)
  | info :: rest =>
      and_then
        (say printCyan (str1 TAB +:+ "<Info> " +:+ info_message info +:+ str1 LF))
        (fun _ =>
      and_then
        (match info_location info with
         | Some loc => print_source_location_run c Info loc
         | None => ([], Ok tt)
         end)
        (fun _ => print_infos_run c rest))
  end.

Definition default_diagnostic_callback_run (c : Context) (d : Diagnostic) : Run unit :=
  and_then (print_header d, Ok tt)
    (fun _ =>
  and_then
    (match location d with
     | Some loc => print_source_location_run c (level d) loc
     | None => ([], Ok tt)
     end)
    (fun _ => print_infos_run c (infos d))).

End Callback.

(** ** Vocabulary for the displayed line *)

Definition is_terminator (a : ascii) : bool := Ascii.eqb a LF || Ascii.eqb a CR.
Definition is_blank (a : ascii) : bool := Ascii.eqb a TAB || Ascii.eqb a SPACE.

(** The bytes up to the first line terminator. *)
Fixpoint up_to_terminator (l : list ascii) : list ascii :=
match l with
| [] => []
| a :: rest => if is_terminator a then [] else a :: up_to_terminator rest
end.

(** The number of leading tabs and blanks. *)
Fixpoint leading_blanks (l : list ascii) : nat :=
match l with
| [] => 0
| a :: rest => if is_blank a then S (leading_blanks rest) else 0
end.

(** Whether a call went to [printCyan]. *)
Definition on_cyan (call : PrintCall) : bool :=
match fst call with
| printCyan => true
| _ => false
end.

(** [n] decrements of a [size_t]. *)
Definition size_t_minus (x : N) (n : nat) : N :=
Z.to_N ((Z.of_N x - Z.of_nat n) mod Z.of_N two64)%Z.

End Render.

(** * Concrete inputs used by the scenarios *)
Module Scenario.
Import Driver Render.

(** The source text [abc\n  xyz\n] and a location at line 2, columns 3 to 5. *)
Definition two_lines : string := "abc" +:+ str1 LF +:+ "  xyz" +:+ str1 LF.
Definition span_source : Source := mkSource 0 "span.x" two_lines TokenBuf.empty.
Definition span_location : Location := mkLocation 0 2 3 2 5.

(** A source whose only line has no terminator, and one that ends in a
    carriage return. *)
Definition unterminated : Source := mkSource 0 "u.x" "abc" TokenBuf.empty.
Definition ends_in_cr : Source := mkSource 0 "r.x" ("a" +:+ str1 CR) TokenBuf.empty.
Definition first_column (line : N) : Location := mkLocation 0 line 1 line 1.

(** A header whose [emit_diagnostic_internal] forwards to
    [emit_diagnostic_impl] and whose tracing is switched off. *)
Definition forwarding_header : Header := {|
  emit_diagnostic_internal l cd loc m c :=
    emit_diagnostic_impl (mkDiagnostic l cd loc m []) c;
  emitTrace m c := c
|}.

(** A tokenizer that rejects every source without a word, and one that
    turns every source into a single locked token carrying its size. *)
Definition silent_tokenizer : Tokenizer := fun c sid => (c, None).

Definition size_tokenizer : Tokenizer := fun c sid =>
  (c, s ← getSource (src_manager c) sid;
      Some (TokenBuf.mkTokenBuffer
              [TokenBuf.mkToken 0%N (mkLocation sid 1 1 1 1)
                 (TokenBuf.PInteger (N.of_nat (String.length (data s))))]
              [] true)).

(** The error a tokenizer reports for a source it rejects. *)
Definition token_error (sid : SourceID) (n : N) : Diagnostic :=
  mkDiagnostic Error (OtherCode n) (Some (mkLocation sid 1 1 1 1)) "unrecognized character" [].

(** A tokenizer that rejects every source and reports one error for it
    through the driver, and one that reports two. *)
Definition reporting_tokenizer : Tokenizer := fun c sid =>
  (emit_counted (token_error sid 1) c, None).

Definition twice_reporting_tokenizer : Tokenizer := fun c sid =>
  (emit_counted (token_error sid 2) (emit_counted (token_error sid 1) c), None).

(** What these tokenizers report for the source 0. *)
Definition one_error : list Diagnostic := [token_error 0 1].
Definition two_errors : list Diagnostic := [token_error 0 1; token_error 0 2].

(** A single-threaded context with a budget of one error that holds
    [exists.x], with its queue and its group flag; and the same after the
    tokenizer has rejected the source with the given errors. *)
Definition tight_loaded (ts : list Task) (running : bool) : Context :=
  mkContext (mkConfig 0 1) 0 false ts
    [mkSource 0 "exists.x" "one" TokenBuf.empty] 0%N false running [] 0.

Definition rejected (errors : list Diagnostic) (running : bool) : Context :=
  mkContext (mkConfig 0 1) 0 false []
    [mkSource 0 "exists.x" "one" TokenBuf.empty]
    (N.of_nat (length errors)) true running errors 0.

(** A disk that holds [exists.x], [a.x] and [b.x]. *)
Definition disk : FileSystem := fun p =>
  if bool_decide (p = "exists.x") then Readable "one"
  else if bool_decide (p = "a.x") then Readable "alpha"
  else if bool_decide (p = "b.x") then Readable "beta"
  else Missing.

Definition single_threaded (budget : N) : Config := mkConfig 0 budget.

(** The context after [exists.x] has been loaded. *)
Definition one_loaded : Context :=
mkContext (single_threaded 10) 0 false []
[mkSource 0 "exists.x" "one" TokenBuf.empty] 0%N false false [] 0.

(** A single-threaded context with a budget of one error and two loads
    queued, the first of a file that does not exist. *)
Definition queued : Context :=
mkContext (single_threaded 1) 0 false
[LoadFileTask "missing.x"; LoadFileTask "a.x"] [] 0%N false true [] 0.

(** What the drain makes of [queued]: the first load fails, the budget is
    spent, the second load stays in the queue. *)
Definition aborted : Context :=
mkContext (single_threaded 1) 0 false
[LoadFileTask "a.x"] [] 1%N true false
[mkDiagnostic Error MiscFileDoesNotExist None (msg_does_not_exist "missing.x") []] 0.

(** The context after [a.x] and [b.x] have been loaded, and after they have
    been tokenized by [size_tokenizer]. *)
Definition two_loaded : Context :=
mkContext (single_threaded 10) 0 false []
[mkSource 0 "a.x" "alpha" TokenBuf.empty; mkSource 1 "b.x" "beta" TokenBuf.empty]
0%N false false [] 0.

Definition size_buffer (sid : SourceID) (n : N) : TokenBuf.TokenBuffer :=
TokenBuf.mkTokenBuffer
[TokenBuf.mkToken 0%N (mkLocation sid 1 1 1 1) (TokenBuf.PInteger n)] [] true.

Definition two_tokenized : Context :=
mkContext (single_threaded 10) 0 false []
[mkSource 0 "a.x" "alpha" (size_buffer 0 5); mkSource 1 "b.x" "beta" (size_buffer 1 4)]
0%N false false [] 0.

(** Formatters that print a level by its name and a code by a letter. *)
Definition plain_formatters : Formatters := {|
  format_level l :=
    match l with
    | Fatal => "Fatal" | Error => "Error" | Warning => "Warning" | Info => "Info"
    end;
  format_code cd :=
    match cd with
    | MiscFileDoesNotExist => "M1" | MiscLoadFileFailed => "M2" | OtherCode _ => "X"
    end
|}.

(** A context that holds [span_source], and an [Info] diagnostic located in it. *)
Definition span_context : Context :=
mkContext (single_threaded 10) 0 false [] [span_source] 0%N false false [] 0.

Definition info_diagnostic : Diagnostic :=
mkDiagnostic Info (OtherCode 7) (Some span_location) "note" [].

(** A context with a pool of four workers started, two sources loaded and
    nothing queued; and the same with the budget of ten spent. *)
Definition pool_ready : Context :=
mkContext (mkConfig 4 10) 4 false []
[mkSource 0 "a.x" "alpha" TokenBuf.empty; mkSource 1 "b.x" "beta" TokenBuf.empty]
0%N false false [] 0.

Definition pool_failed : Context :=
mkContext (mkConfig 4 10) 4 false [LoadFileTask "missing.x"]
[] 10%N true true [] 1.

(** An [Error] diagnostic with two notes, the second located in
    [span_source]. *)
Definition noted_diagnostic : Diagnostic :=
mkDiagnostic Error (OtherCode 7) None "bad"
[mkInfo "first" None; mkInfo "second" (Some span_location)].

(** A location in the first line of [span_source] whose column is zero. *)
Definition column_zero : Location := mkLocation 0 1 0 1 0.

(** A fresh single-threaded context. *)
Definition fresh (budget : N) : Context :=
  mkContext (single_threaded budget) 0 false [] [] 0%N false false [] 0.

End Scenario.

(** * Properties *)

Import Driver Render.

(** ** Sequencing of fallible steps *)

Lemma bind_Ok {A B} (r : result A) (k : A -> result B) (b : B) :
  r ≫= k = Ok b -> exists a, r = Ok a /\ k a = Ok b.
Proof. destruct r; cbn; intros Hk; try discriminate. eauto. Qed.

Lemma debugAssert_Ok (cond : bool) (u : unit) :
  debugAssert cond = Ok u -> cond = true.
Proof. destruct cond; [reflexivity | discriminate]. Qed.

(** ** TokenBuffer *)

Lemma push_token_locked (b : TokenBuf.TokenBuffer) (t : TokenBuf.Token) :
  TokenBuf.is_locked b = true -> TokenBuf.push_token b t = inl TokenBuf.BufferLocked.
Proof. unfold TokenBuf.push_token. intros ->. reflexivity. Qed.

Lemma create_step_locked (b : TokenBuf.TokenBuffer) (o : TokenBuf.Op) :
  TokenBuf.is_locked b = true ->
  TokenBuf.is_locked (fst (TokenBuf.step b o)) = true
  /\ (TokenBuf.is_create o = true ->
      TokenBuf.step b o = (b, TokenBuf.Rejected TokenBuf.BufferLocked)).
Proof.
  intros Hb.
  destruct o; cbn;
    unfold TokenBuf.createToken, TokenBuf.createToken_bool, TokenBuf.createToken_u64,
           TokenBuf.createToken_f64, TokenBuf.createToken_string;
    rewrite ?push_token_locked by assumption; rewrite ?Hb; cbn; auto;
    (split; [reflexivity | discriminate]).
Qed.

(** C7. Once [lock()] has been called on a buffer, [is_locked] is true after
    every later operation (appends, further locks, moves), and every later
    [createToken], whichever overload, is rejected with [BufferLocked] and
    leaves the buffer as it was. *)
Theorem lock_is_final (b : TokenBuf.TokenBuffer) (ops : list TokenBuf.Op) :
  TokenBuf.isLocked (TokenBuf.lock b) = true
  /\ TokenBuf.isLocked (fst (TokenBuf.run (TokenBuf.lock b) ops)) = true
  /\ Forall (fun '(o, after, reply) =>
               TokenBuf.isLocked after = true
               /\ (TokenBuf.is_create o = true ->
                   reply = TokenBuf.Rejected TokenBuf.BufferLocked))
            (snd (TokenBuf.run (TokenBuf.lock b) ops))
  /\ TokenBuf.tokens (fst (TokenBuf.run (TokenBuf.lock b) ops)) = TokenBuf.tokens b.
Proof.
  split; [reflexivity|].
  assert (Hgen : forall ops b0, TokenBuf.is_locked b0 = true ->
            TokenBuf.is_locked (fst (TokenBuf.run b0 ops)) = true
            /\ Forall (fun '(o, after, reply) =>
                   TokenBuf.isLocked after = true
                   /\ (TokenBuf.is_create o = true ->
                       reply = TokenBuf.Rejected TokenBuf.BufferLocked))
                 (snd (TokenBuf.run b0 ops))
            /\ TokenBuf.tokens (fst (TokenBuf.run b0 ops)) = TokenBuf.tokens b0).
  { clear. induction ops as [|o rest IH]; intros b0 Hb0; cbn.
    - auto.
    - destruct (create_step_locked b0 o Hb0) as [Hl Hrej].
      destruct (TokenBuf.step b0 o) as [b1 r] eqn:Hstep. cbn in Hl.
      specialize (IH b1 Hl). destruct (TokenBuf.run b1 rest) as [b2 log]. cbn in *.
      destruct IH as (IH1 & IH2 & IH3).
      split; [assumption|]. split.
      + constructor; [|assumption]. split; [assumption|].
        intros Hc. specialize (Hrej Hc). congruence.
      + rewrite IH3. destruct o; cbn in Hstep;
          try (specialize (Hrej eq_refl); congruence); inversion Hstep; reflexivity. }
  apply (Hgen ops (TokenBuf.lock b)). reflexivity.
Qed.

(** ** Rendering of a location *)

(** C6. For the source text [abc\n  xyz\n] and a location at line 2, columns
    3 to 5, the scan yields the line [xyz] with the caret column moved from
    3 to 1 (no blanks before the carets), and the renderer prints the file
    position, the line [2 | xyz], the spacer and a pointer made of exactly
    three carets, the last with the printer method of the level. *)
Theorem span_rendering (lvl : Level) :
  (exists st,
      scan_source (list_ascii_of_string (data Scenario.span_source)) Scenario.span_location = Ok st
      /\ string_of_list_ascii (line_str st) = "xyz"
      /\ point_collumn st = 1%N
      /\ pointer_indent (point_collumn st) = 0
      /\ pointer_str Scenario.span_location (point_collumn st) (line_str st)
         = Ok ("^^^" +:+ str1 LF))
  /\ single_line_carets Scenario.span_location = 3
  /\ print_location Scenario.span_source lvl Scenario.span_location
     = Ok [ (printGray, str1 TAB +:+ "span.x:2:3" +:+ str1 LF);
            (printGray, str1 TAB +:+ "2 | xyz" +:+ str1 LF);
            (printGray, str1 TAB +:+ "  | ");
            (level_method lvl, "^^^" +:+ str1 LF) ].
Proof.
  split; [|split].
  - eexists. split; [vm_compute; reflexivity|]. vm_compute. repeat split; reflexivity.
  - vm_compute. reflexivity.
  - destruct lvl; vm_compute; reflexivity.
Qed.

Lemma char_at_in_range (bytes : list ascii) (i : nat) (a : ascii) :
  char_at bytes i = a -> a <> NUL -> i < length bytes.
Proof.
  unfold char_at. intros Hc Ha.
  destruct (bytes !! i) as [x|] eqn:Hl.
  - eapply lookup_lt_Some; eassumption.
  - cbn in Hc. congruence.
Qed.

Lemma char_at_LF_in_range (bytes : list ascii) (i : nat) :
  Ascii.eqb (char_at bytes i) LF = true -> i < length bytes.
Proof.
  intros He. apply Ascii.eqb_eq in He.
  eapply char_at_in_range; [eassumption | discriminate].
Qed.

(** The first loop leaves the cursor within the text or on its terminator,
    and has read nothing beyond the terminator. *)
Lemma find_line_bounded (bytes : list ascii) (line_start : N) :
  forall fuel current_line s s',
    find_line fuel bytes line_start current_line s = Ok s' ->
    cursor s <= length bytes ->
    Forall (fun i => i <= length bytes) (reads s) ->
    cursor s' <= length bytes /\ Forall (fun i => i <= length bytes) (reads s').
Proof.
  induction fuel as [|fuel IH]; intros current_line s s' Hrun Hc Hr; cbn in Hrun.
  - destruct (current_line <? line_start)%N; [discriminate|].
    inversion Hrun; subst; auto.
  - destruct (current_line <? line_start)%N; [|inversion Hrun; subst; auto].
    unfold debugAssert in Hrun. case_bool_decide as Hlt; [|discriminate]. cbn in Hrun.
    destruct (Ascii.eqb (char_at bytes (cursor s)) LF) eqn:E1.
    { apply IH in Hrun; cbn; [assumption | lia |].
      apply Forall_app; split; [assumption|]. repeat constructor; lia. }
    destruct (Ascii.eqb (char_at bytes (cursor s)) CR) eqn:E2.
    { apply IH in Hrun; cbn; [assumption | |].
      - destruct (Ascii.eqb (char_at bytes (cursor s + 1)) LF) eqn:E3; [|lia].
        apply char_at_LF_in_range in E3. lia.
      - apply Forall_app; split; [assumption|]. repeat constructor; lia. }
    apply IH in Hrun; cbn; [assumption | lia |].
    apply Forall_app; split; [assumption|]. repeat constructor; lia.
Qed.

Lemma condition_reads_bounded (bytes : list ascii) (c : nat) :
  c <= length bytes -> Forall (fun i => i <= length bytes) (condition_reads bytes c).
Proof.
  intros Hc. unfold condition_reads.
  destruct (Ascii.eqb _ _); repeat constructor; assumption.
Qed.

Lemma whitespace_reads_bounded (bytes : list ascii) (rw : bool) (c : nat) :
  c <= length bytes -> Forall (fun i => i <= length bytes) (whitespace_reads bytes rw c).
Proof.
  intros Hc. unfold whitespace_reads.
  destruct rw; [destruct (Ascii.eqb _ _)|]; repeat constructor; assumption.
Qed.

Lemma get_line_bounded (bytes : list ascii) :
  forall fuel st st',
    get_line fuel bytes st = Ok st' ->
    cursor (scan st) <= length bytes ->
    Forall (fun i => i <= length bytes) (reads (scan st)) ->
    cursor (scan st') <= length bytes
    /\ Forall (fun i => i <= length bytes) (reads (scan st')).
Proof.
  induction fuel as [|fuel IH]; intros st st' Hrun Hc Hr; cbn in Hrun.
  - destruct (_ && _); [discriminate|]. inversion Hrun; subst; cbn.
    split; [assumption|]. apply Forall_app; split; [assumption|].
    apply condition_reads_bounded; assumption.
  - destruct (_ && _) eqn:Hcond.
    + apply andb_prop in Hcond as [_ Hlt]. apply bool_decide_eq_true in Hlt.
      assert (Hrd : Forall (fun i => i <= length bytes)
                      ((reads (scan st) ++ condition_reads bytes (cursor (scan st)))
                         ++ whitespace_reads bytes (remove_whitespace st) (cursor (scan st)))).
      { repeat (apply Forall_app; split); try assumption.
        - apply condition_reads_bounded; assumption.
        - apply whitespace_reads_bounded; assumption. }
      destruct (remove_whitespace st && _).
      * apply IH in Hrun; cbn; [assumption | lia | assumption].
      * apply IH in Hrun; cbn; [assumption | lia |].
        apply Forall_app; split; [assumption|]. repeat constructor; lia.
    + inversion Hrun; subst; cbn.
      split; [assumption|]. apply Forall_app; split; [assumption|].
      apply condition_reads_bounded; assumption.
Qed.

(** X1. Whenever the scan completes, every index it has read is at most the size
    of the text: the scan stays within the bytes and their terminating zero. *)
Lemma scan_reads_bounded (bytes : list ascii) (loc : Location) (st : LineScan) :
  scan_source bytes loc = Ok st ->
  Forall (fun i => i <= length bytes) (reads (scan st)).
Proof.
  unfold scan_source. intros Hrun.
  apply bind_Ok in Hrun as (s & Hfind & Hrun).
  apply find_line_bounded in Hfind as [Hc Hr]; cbn; [|lia|constructor].
  apply get_line_bounded in Hrun as [_ H]; cbn; assumption.
Qed.

(** C9. The scan of [print_location] does read the text at the index equal
    to its size. On [abc], whose only line has no terminator, the second
    loop evaluates [data[3]] before it tests [cursor < size]; on a text that
    ends in a carriage return the first loop looks ahead to [data[cursor + 1]],
    which is [data[2]] of a text of two bytes. Both scans complete, and
    neither reads beyond that index. *)
Theorem final_line_scan_reads_at_size :
  (exists st,
      scan_source (list_ascii_of_string (data Scenario.unterminated)) (Scenario.first_column 1) = Ok st
      /\ length (list_ascii_of_string (data Scenario.unterminated)) = 3
      /\ In 3 (reads (scan st))
      /\ ~ Forall (fun i => i < 3) (reads (scan st))
      /\ Forall (fun i => i <= 3) (reads (scan st)))
  /\ (exists st,
      scan_source (list_ascii_of_string (data Scenario.ends_in_cr)) (Scenario.first_column 2) = Ok st
      /\ length (list_ascii_of_string (data Scenario.ends_in_cr)) = 2
      /\ In 2 (reads (scan st))
      /\ ~ Forall (fun i => i < 2) (reads (scan st))
      /\ Forall (fun i => i <= 2) (reads (scan st))).
Proof.
  assert (Hin : forall (n : nat) (l : list nat),
             existsb (Nat.eqb n) l = true -> In n l /\ ~ Forall (fun i => i < n) l).
  { intros n l Hex. apply existsb_exists in Hex as (x & Hx & Heq).
    apply Nat.eqb_eq in Heq. subst x. split; [assumption|].
    rewrite Forall_forall. intros Hall.
    specialize (Hall n (proj2 (list_elem_of_In _ _) Hx)). lia. }
  split; eexists; (split; [vm_compute; reflexivity|]); cbn [scan reads];
    (split; [reflexivity|]).
  all: match goal with
       | |- In ?n ?l /\ _ => destruct (Hin n l eq_refl) as [Hmem Hnot]
       end.
  all: split; [exact Hmem | split; [exact Hnot | repeat constructor]].
Qed.

(** ** The driver: collaborators *)

Lemma forwarding_header_laws : HeaderLaws (H := Scenario.forwarding_header).
Proof.
  split.
  - reflexivity.
  - intros m c. exists []. split; [|constructor].
    cbn. unfold set_delivered. rewrite app_nil_r. destruct c; reflexivity.
Qed.

Lemma silent_tokenizer_laws : TokenizerLaws (T := Scenario.silent_tokenizer).
Proof. split; intros c sid; cbn; [repeat split | auto]. Qed.

Lemma size_tokenizer_laws : TokenizerLaws (T := Scenario.size_tokenizer).
Proof. split; intros c sid; cbn; [repeat split | auto]. Qed.

Lemma size_tokenizer_deterministic : deterministic (T := Scenario.size_tokenizer).
Proof.
  intros c c' sid s s' Hs Hs' Hdata. cbn.
  rewrite Hs, Hs'. cbn. rewrite Hdata. reflexivity.
Qed.

Section DriverFacts.
Context `{FS : FileSystem} `{H : Header} `{T : Tokenizer}.
Context (HL : HeaderLaws).

Lemma errors_of_app (xs ys : list Diagnostic) :
  errors_of (xs ++ ys) = errors_of xs ++ errors_of ys.
Proof. apply List.filter_app. Qed.

Lemma errors_of_quiet (ds : list Diagnostic) :
  Forall (fun d => is_error_level (level d) = false) ds -> errors_of ds = [].
Proof.
  induction 1 as [|d ds Hd _ IH]; [reflexivity|].
  unfold errors_of in *. cbn. rewrite Hd. exact IH.
Qed.

(** [emitTrace] changes nothing but the list of delivered diagnostics, and
    adds no error to it. *)
Lemma emitTrace_effect (m : string) (c : Context) :
  exists ds, emitTrace m c = set_delivered (delivered c ++ ds) c /\ errors_of ds = [].
Proof.
  destruct (emitTrace_only_reports HL m c) as (ds & Heq & Hq).
  exists ds. split; [assumption | apply errors_of_quiet; assumption].
Qed.

(** The three error exits of [run_load_file]. *)
Lemma run_load_file_failure (p : string) (c : Context) :
  is_readable p = false ->
  run_load_file p c
  = (emit_diagnostic_impl
       (mkDiagnostic Error (load_failure_code p) None (load_failure_message p) [])
       (set_num_errors (num_errors c + 1)%N c), false).
Proof.
  unfold is_readable, run_load_file, load_failure, load_failure_code, load_failure_message.
  destruct (fs_status p); intros Hr; try discriminate;
    rewrite (emit_internal_forwards HL); reflexivity.
Qed.

(** The successful exit of [run_load_file]. *)
Lemma run_load_file_success (p : string) (c : Context) :
  is_readable p = true ->
  exists ds,
    run_load_file p c
    = (set_src_manager
         (src_manager c ++ [mkSource (length (src_manager c)) p (file_contents p) TokenBuf.empty])
         (set_delivered (delivered c ++ ds) c), true)
    /\ errors_of ds = [].
Proof.
  unfold is_readable, run_load_file, file_contents.
  destruct (fs_status p) as [| | |contents]; intros Hr; try discriminate.
  destruct (emitTrace_effect (msg_loaded p) c) as (ds & -> & Hq).
  exists ds. split; [reflexivity | assumption].
Qed.

End DriverFacts.

(** ** The driver: one task *)

Section OneTask.
Context `{FS : FileSystem} `{H : Header} `{T : Tokenizer}.
Context (HL : HeaderLaws).

Lemma single_threaded_set_tasks (ts : list Task) (c : Context) :
  isSingleThreaded (set_tasks ts c) = isSingleThreaded c.
Proof. reflexivity. Qed.

(** [notify_task_errored] touches the fail flag and the helper count only. *)
Lemma notify_task_errored_fields (c : Context) :
  same_schedule c (notify_task_errored c)
  /\ num_errors (notify_task_errored c) = num_errors c
  /\ delivered (notify_task_errored c) = delivered c
  /\ (hit_fail_condition (notify_task_errored c) = true
      <-> hit_fail_condition c = true \/ (maxNumErrors (config c) <= num_errors c)%N).
Proof.
  unfold notify_task_errored, same_schedule, hasHitFailCondition.
  destruct (maxNumErrors (config c) <=? num_errors c)%N eqn:Hle.
  - apply N.leb_le in Hle. cbn. destruct (isMultiThreaded _); cbn; tauto.
  - apply N.leb_gt in Hle.
    destruct (hit_fail_condition c) eqn:Hf; cbn;
      [destruct (isMultiThreaded c); cbn|]; rewrite ?Hf;
      repeat split; auto; intros; try discriminate; try lia;
      destruct H0; try discriminate; lia.
Qed.

(** A queued load of a readable file, run by the single-threaded worker. *)
Lemma get_task_load_success (w : Worker) (c : Context) (p : string) (rest : list Task) :
  isSingleThreaded c = true ->
  tasks c = LoadFileTask p :: rest ->
  is_readable p = true ->
  exists ds,
    get_task_single_threaded w c
    = Ok (mkWorker false,
          set_src_manager
            (src_manager c ++ [mkSource (length (src_manager c)) p (file_contents p) TokenBuf.empty])
            (set_delivered (delivered c ++ ds) (set_tasks rest c)))
    /\ errors_of ds = [].
Proof.
  intros Hst Htasks Hr. unfold get_task_single_threaded.
  rewrite Hst, Htasks. cbn.
  destruct (run_load_file_success HL p (set_tasks rest c) Hr) as (ds & Hrun & Hq).
  exists ds. split; [|assumption].
  unfold run_task, visit. rewrite Hrun. reflexivity.
Qed.

(** A queued load that fails, run by the single-threaded worker. *)
Lemma get_task_load_failure (w : Worker) (c : Context) (p : string) (rest : list Task) :
  isSingleThreaded c = true ->
  tasks c = LoadFileTask p :: rest ->
  is_readable p = false ->
  get_task_single_threaded w c
  = Ok (mkWorker false,
        notify_task_errored
          (emit_diagnostic_impl
             (mkDiagnostic Error (load_failure_code p) None (load_failure_message p) [])
             (set_num_errors (num_errors c + 1)%N (set_tasks rest c)))).
Proof.
  intros Hst Htasks Hr. unfold get_task_single_threaded.
  rewrite Hst, Htasks. cbn.
  unfold run_task, visit. rewrite (run_load_file_failure HL) by assumption. reflexivity.
Qed.

End OneTask.

(** ** Failure propagation *)

(** What the counting emit changes: the error count by one for an error, the
    delivered diagnostics, and the fail flag, which it never lowers. *)
Lemma emit_counted_fields (d : Diagnostic) (c : Context) :
  same_schedule c (emit_counted d c)
  /\ num_errors (emit_counted d c)
     = (if is_error_level (level d) then num_errors c + 1 else num_errors c)%N
  /\ (hit_fail_condition c = true -> hit_fail_condition (emit_counted d c) = true).
Proof.
  unfold emit_counted. destruct (is_error_level (level d)).
  - match goal with
    | |- context [notify_task_errored ?x] =>
        destruct (notify_task_errored_fields x) as (Hs & Hn & _ & Hf)
    end.
    split; [|split].
    + unfold same_schedule in *. cbn in Hs. exact Hs.
    + rewrite Hn. reflexivity.
    + intros Hup. apply Hf. left. exact Hup.
  - cbn. repeat split; auto.
Qed.

Lemma reporting_tokenizer_laws : TokenizerLaws (T := Scenario.reporting_tokenizer).
Proof.
  split; intros c sid; cbn [tokenize Scenario.reporting_tokenizer fst];
    apply emit_counted_fields.
Qed.

Lemma reporting_tokenizer_reports : reports_its_failure (T := Scenario.reporting_tokenizer).
Proof.
  intros c sid _. cbn [tokenize Scenario.reporting_tokenizer fst].
  destruct (emit_counted_fields (Scenario.token_error sid 1) c) as (_ & -> & _).
  cbn. lia.
Qed.

Lemma reporting_tokenizer_counts : counts_own_failure (T := Scenario.reporting_tokenizer).
Proof.
  intros c sid. right. split; [reflexivity|].
  cbn [tokenize Scenario.reporting_tokenizer fst].
  destruct (emit_counted_fields (Scenario.token_error sid 1) c) as (_ & -> & _).
  reflexivity.
Qed.

Lemma twice_reporting_tokenizer_laws :
  TokenizerLaws (T := Scenario.twice_reporting_tokenizer).
Proof.
  split; intros c sid; cbn [tokenize Scenario.twice_reporting_tokenizer fst].
  - destruct (emit_counted_fields (Scenario.token_error sid 1) c) as (Hs1 & _).
    destruct (emit_counted_fields (Scenario.token_error sid 2)
                (emit_counted (Scenario.token_error sid 1) c)) as (Hs2 & _).
    unfold same_schedule in *.
    destruct Hs1 as (? & ? & ? & ? & ? & ?), Hs2 as (? & ? & ? & ? & ? & ?).
    repeat split; congruence.
  - intros Hup. apply emit_counted_fields. apply emit_counted_fields. exact Hup.
Qed.

Lemma twice_reporting_tokenizer_reports :
  reports_its_failure (T := Scenario.twice_reporting_tokenizer).
Proof.
  intros c sid _. cbn [tokenize Scenario.twice_reporting_tokenizer fst].
  destruct (emit_counted_fields (Scenario.token_error sid 2)
              (emit_counted (Scenario.token_error sid 1) c)) as (_ & -> & _).
  destruct (emit_counted_fields (Scenario.token_error sid 1) c) as (_ & -> & _).
  cbn. lia.
Qed.

(** What a handler that reports failure has done to the error count. *)
Lemma failed_visit_counts `{FS : FileSystem} `{H : Header} `{T : Tokenizer}
      (t : Task) (c c1 : Context) :
  HeaderLaws -> reports_its_failure ->
  visit t c = Ok (c1, false) ->
  (num_errors c + 1 <= num_errors c1)%N
  /\ (forall p, t = LoadFileTask p -> num_errors c1 = (num_errors c + 1)%N).
Proof.
  intros HL HR Hvisit. destruct t as [p|sid]; cbn in Hvisit.
  - destruct (is_readable p) eqn:Hr.
    + destruct (run_load_file_success HL p c Hr) as (ds & Hrun & _). congruence.
    + rewrite (run_load_file_failure HL p c Hr) in Hvisit.
      inversion Hvisit; subst. cbn. split; [lia | reflexivity].
  - split; [|discriminate].
    unfold run_tokenize_file in Hvisit.
    pose proof (HR c sid) as Hcount.
    destruct (tokenize c sid) as [c' res]. cbn in Hcount.
    destruct res as [tb|].
    + destruct (getSource _ _); [inversion Hvisit | discriminate].
    + inversion Hvisit; subst. apply Hcount. reflexivity.
Qed.

(** C1. The tokenizer reports its failure through the driver, as the
    specification has it: a run that returns an error has raised
    [num_errors] by at least one. Then, whenever the handler of a task,
    [LoadFile] or [TokenizeFile], returns failure, [run_task] returns with
    [num_errors] at least one above where it was (exactly one above for a
    [LoadFile] task), having called [notify_task_errored], which leaves the
    count as it is and has the fail condition up exactly when it was up
    already or [num_errors] has reached [maxNumErrors]. *)
Theorem failed_task_is_counted `{FS : FileSystem} `{H : Header} `{T : Tokenizer}
        (t : Task) (c c1 : Context) :
  HeaderLaws -> reports_its_failure ->
  visit t c = Ok (c1, false) ->
  failure_is_counted t c
  /\ run_task t c = Ok (notify_task_errored c1)
  /\ (num_errors c + 1 <= num_errors (notify_task_errored c1))%N
  /\ (forall p, t = LoadFileTask p ->
      num_errors (notify_task_errored c1) = (num_errors c + 1)%N)
  /\ num_errors (notify_task_errored c1) = num_errors c1
  /\ (hit_fail_condition (notify_task_errored c1) = true
      <-> hit_fail_condition c1 = true \/ (maxNumErrors (config c1) <= num_errors c1)%N).
Proof.
  intros HL HR Hvisit.
  destruct (notify_task_errored_fields c1) as (_ & Hn & _ & Hf).
  destruct (failed_visit_counts t c c1 HL HR Hvisit) as [Hge Hload].
  assert (Hrun : run_task t c = Ok (notify_task_errored c1)).
  { unfold run_task. rewrite Hvisit. reflexivity. }
  split; [|split; [exact Hrun|split; [|split; [|split; assumption]]]].
  - intros c1' c2 Hvisit' Hrun'.
    rewrite Hrun in Hrun'. inversion Hrun'; subst c2. rewrite Hn. exact Hge.
  - rewrite Hn. exact Hge.
  - intros p Hp. rewrite Hn. exact (Hload p Hp).
Qed.

Lemma failed_task_is_counted_witness :
  (exists c1,
      visit (FS := Scenario.disk) (H := Scenario.forwarding_header)
            (T := Scenario.reporting_tokenizer)
            (TokenizeFileTask 0) Scenario.one_loaded = Ok (c1, false)
      /\ num_errors Scenario.one_loaded = 0%N
      /\ num_errors (notify_task_errored c1) = 1%N
      /\ failure_is_counted (FS := Scenario.disk) (H := Scenario.forwarding_header)
           (T := Scenario.reporting_tokenizer)
           (TokenizeFileTask 0) Scenario.one_loaded)
  /\ (exists c1,
      visit (FS := Scenario.disk) (H := Scenario.forwarding_header)
            (T := Scenario.reporting_tokenizer)
            (LoadFileTask "missing.x") (Scenario.fresh 1) = Ok (c1, false)
      /\ num_errors (notify_task_errored c1) = 1%N
      /\ hit_fail_condition (notify_task_errored c1) = true).
Proof.
  split.
  - eexists. split; [reflexivity|]. split; [reflexivity|]. split; [reflexivity|].
    exact (proj1 (failed_task_is_counted
                    (FS := Scenario.disk) (H := Scenario.forwarding_header)
                    (T := Scenario.reporting_tokenizer)
                    (TokenizeFileTask 0) Scenario.one_loaded _
                    forwarding_header_laws reporting_tokenizer_reports eq_refl)).
  - eexists. split; [reflexivity|]. split; [reflexivity|].
    apply (failed_task_is_counted
             (FS := Scenario.disk) (H := Scenario.forwarding_header)
             (T := Scenario.reporting_tokenizer)
             (LoadFileTask "missing.x") (Scenario.fresh 1) _
             forwarding_header_laws reporting_tokenizer_reports eq_refl).
    right. cbn. lia.
Defined.

(** ** The single-threaded drain *)

Section Loop.
Context `{FS : FileSystem} `{H : Header} `{T : Tokenizer}.

Lemma consume_loop_iterate (fuel : nat) (w : Worker) (c : Context) :
  tasks c <> [] ->
  hit_fail_condition c = false ->
  consume_loop (S fuel) w c
  = get_task_single_threaded w c ≫= fun '((w1, c1) : Worker * Context) =>
    consume_loop fuel w1 c1.
Proof.
  intros Hne Hf. cbn [consume_loop]. unfold hasHitFailCondition. rewrite Hf.
  rewrite bool_decide_eq_false_2 by assumption. reflexivity.
Qed.

Lemma consume_loop_exit (fuel : nat) (w : Worker) (c : Context) :
  tasks c = [] \/ hit_fail_condition c = true ->
  consume_loop fuel w c = Ok (w, c).
Proof.
  intros Hexit. unfold hasHitFailCondition.
  destruct fuel; cbn [consume_loop]; unfold hasHitFailCondition;
    (destruct Hexit as [-> | ->]; [reflexivity|]);
    rewrite andb_false_r; reflexivity.
Qed.

Lemma consume_tasks_unfold (fuel : nat) (c : Context) :
  isSingleThreaded c = true ->
  consume_tasks_single_threaded fuel c
  = consume_loop fuel (mkWorker false) c ≫= fun '((_, c1) : Worker * Context) =>
    Ok (set_task_group_running false c1).
Proof. intros Hst. unfold consume_tasks_single_threaded. rewrite Hst. reflexivity. Qed.

(** [loadFiles] in single-threaded mode, with its assertions discharged. *)
Lemma loadFiles_unfold (fuel : nat) (file_paths : list string) (c : Context) :
  isSingleThreaded c = true ->
  task_group_running c = false ->
  loadFiles fuel file_paths c
  = consume_loop fuel (mkWorker false)
      (set_tasks (tasks c ++ map LoadFileTask file_paths) (set_task_group_running true c))
    ≫= fun '((_, c1) : Worker * Context) => Ok (set_task_group_running false c1).
Proof.
  intros Hst Htg. unfold loadFiles. rewrite Hst, Htg. cbn [debugAssert negb mbind result_bind].
  change (isSingleThreaded (set_tasks _ _)) with (isSingleThreaded c). rewrite Hst.
  rewrite consume_tasks_unfold by exact Hst.
  destruct c; reflexivity.
Qed.

(** [tokenizeLoadedFiles] in single-threaded mode, likewise. *)
Lemma tokenizeLoadedFiles_unfold (fuel : nat) (c : Context) :
  isSingleThreaded c = true ->
  task_group_running c = false ->
  tokenizeLoadedFiles fuel c
  = consume_loop fuel (mkWorker false)
      (set_tasks (tasks c ++ map (fun s => TokenizeFileTask (getID s)) (src_manager c))
                 (set_task_group_running true c))
    ≫= fun '((_, c1) : Worker * Context) => Ok (set_task_group_running false c1).
Proof.
  intros Hst Htg. unfold tokenizeLoadedFiles. rewrite Htg. cbn [debugAssert negb mbind result_bind].
  change (isSingleThreaded (set_tasks _ _)) with (isSingleThreaded c). rewrite Hst.
  rewrite consume_tasks_unfold by exact Hst. reflexivity.
Qed.

End Loop.

#[local] Arguments run_load_file : simpl never.
#[local] Arguments run_tokenize_file : simpl never.
#[local] Arguments run_task : simpl never.
#[local] Arguments notify_task_errored : simpl never.
#[local] Arguments get_task_single_threaded : simpl never.
#[local] Arguments consume_loop : simpl never.
#[local] Arguments errors_of : simpl never.

(** ** Loading files *)

(** C2. A [LoadFile] task whose path does not exist delivers exactly one
    diagnostic, an [Error] with code [MiscFileDoesNotExist], raises
    [num_errors] by exactly one, returns failure and leaves the source
    manager as it was. Consequently [loadFiles] on [exists.x; missing.x],
    single-threaded with a budget of ten, ends with the one existing file in
    the manager, [num_errors = 1], one error diagnostic (the missing file's),
    an empty queue, the group no longer running and no fail condition. *)
Theorem missing_file_is_reported_once `{FS : FileSystem} `{H : Header} `{T : Tokenizer} :
  HeaderLaws ->
  (forall p c, fs_status p = Missing ->
     exists c1,
       run_load_file p c = (c1, false)
       /\ delivered c1
          = delivered c
            ++ [mkDiagnostic Error MiscFileDoesNotExist None (msg_does_not_exist p) []]
       /\ num_errors c1 = (num_errors c + 1)%N
       /\ src_manager c1 = src_manager c)
  /\ (forall contents fuel,
        fs_status "exists.x" = Readable contents ->
        fs_status "missing.x" = Missing ->
        2 <= fuel ->
        exists c0 c',
          new_Context (mkConfig 0 10) = Ok c0
          /\ loadFiles fuel ["exists.x"; "missing.x"] c0 = Ok c'
          /\ src_manager c' = [mkSource 0 "exists.x" contents TokenBuf.empty]
          /\ num_errors c' = 1%N
          /\ errors_of (delivered c')
             = [mkDiagnostic Error MiscFileDoesNotExist None
                  (msg_does_not_exist "missing.x") []]
          /\ tasks c' = []
          /\ task_group_running c' = false
          /\ hit_fail_condition c' = false).
Proof.
  intros HL. split.
  - intros p c Hp. eexists. split.
    + rewrite (run_load_file_failure HL); [reflexivity|].
      unfold is_readable. rewrite Hp. reflexivity.
    + unfold load_failure_code, load_failure_message. rewrite Hp. cbn. auto.
  - intros contents fuel He Hm Hfuel.
    destruct fuel as [|[|fuel]]; try lia.
    assert (Hre : is_readable "exists.x" = true) by (unfold is_readable; rewrite He; reflexivity).
    assert (Hrm : is_readable "missing.x" = false) by (unfold is_readable; rewrite Hm; reflexivity).
    pose (c0 := mkContext (mkConfig 0 10) 0 false [] [] 0%N false false [] 0).
    destruct (get_task_load_success HL (mkWorker false)
                (set_tasks (tasks c0 ++ map LoadFileTask ["exists.x"; "missing.x"])
                           (set_task_group_running true c0))
                "exists.x" [LoadFileTask "missing.x"] eq_refl eq_refl Hre)
      as (ds & Hfirst & Hq).
    exists c0. eexists. split; [reflexivity|].
    rewrite loadFiles_unfold by reflexivity.
    rewrite consume_loop_iterate by (cbn; congruence).
    rewrite Hfirst.
    cbn [mbind result_bind].
    rewrite consume_loop_iterate by (cbn; congruence).
    match goal with
    | |- context [get_task_single_threaded ?w ?c] =>
        rewrite (get_task_load_failure HL w c "missing.x" [] eq_refl eq_refl Hrm)
    end.
    cbn [mbind result_bind].
    rewrite consume_loop_exit by (left; reflexivity).
    cbn [mbind result_bind].
    split; [reflexivity|].
    match goal with
    | |- context [notify_task_errored ?c1] =>
        destruct (notify_task_errored_fields c1)
          as ((_ & _ & _ & Ht & Hs & _) & Hn & Hd & Hf);
        destruct (hit_fail_condition (notify_task_errored c1)) eqn:Hfail
    end.
    { exfalso. destruct (proj1 Hf eq_refl) as [Hup|Hup]; cbn in Hup; [discriminate | lia]. }
    cbn [src_manager num_errors delivered tasks task_group_running hit_fail_condition
         set_task_group_running].
    rewrite Hs, Hn, Hd, Ht, Hfail.
    unfold file_contents, load_failure_code, load_failure_message.
    rewrite He, Hm. cbn.
    repeat split; try reflexivity.
    rewrite errors_of_app, Hq. reflexivity.
Qed.

Lemma missing_file_is_reported_once_witness :
  (exists c1,
      run_load_file (FS := Scenario.disk) (H := Scenario.forwarding_header)
                    "missing.x" (Scenario.fresh 10) = (c1, false)
      /\ num_errors c1 = 1%N /\ src_manager c1 = [])
  /\ (exists c',
        loadFiles (FS := Scenario.disk) (H := Scenario.forwarding_header)
                  (T := Scenario.silent_tokenizer)
                  2 ["exists.x"; "missing.x"] (Scenario.fresh 10) = Ok c'
        /\ src_manager c' = [mkSource 0 "exists.x" "one" TokenBuf.empty]
        /\ num_errors c' = 1%N
        /\ hit_fail_condition c' = false).
Proof.
  destruct (missing_file_is_reported_once
              (FS := Scenario.disk) (H := Scenario.forwarding_header)
              (T := Scenario.silent_tokenizer) forwarding_header_laws)
    as [Htask Hrun].
  split.
  - destruct (Htask "missing.x" (Scenario.fresh 10) eq_refl) as (c1 & Hr & _ & Hn & Hs).
    exists c1. auto.
  - destruct (Hrun "one" 2 eq_refl eq_refl (le_n 2))
      as (c0 & c' & Hnew & Hload & Hs & Hn & _ & _ & _ & Hf).
    exists c'. inversion Hnew; subst c0. auto.
Defined.

Section LoadAll.
Context `{FS : FileSystem} `{H : Header} `{T : Tokenizer}.
Context (HL : HeaderLaws).

(** The sources [addSource] creates for a list of readable paths, the first
    at position [base]. *)
Lemma drain_of_readable_loads (file_paths : list string) :
  forall fuel w c,
    isSingleThreaded c = true ->
    hit_fail_condition c = false ->
    tasks c = map LoadFileTask file_paths ->
    forallb is_readable file_paths = true ->
    length file_paths <= fuel ->
    exists w' c',
      consume_loop fuel w c = Ok (w', c')
      /\ tasks c' = []
      /\ src_manager c'
         = src_manager c
           ++ imap (fun i p => mkSource (length (src_manager c) + i) p (file_contents p)
                                        TokenBuf.empty) file_paths
      /\ num_errors c' = num_errors c
      /\ hit_fail_condition c' = false
      /\ errors_of (delivered c') = errors_of (delivered c)
      /\ config c' = config c
      /\ task_group_running c' = task_group_running c.
Proof.
  induction file_paths as [|p rest IH]; intros fuel w c Hst Hf Htasks Hread Hfuel.
  - exists w, c. rewrite consume_loop_exit by (left; exact Htasks).
    cbn. rewrite app_nil_r. auto 10.
  - cbn in Hread. apply andb_prop in Hread as [Hp Hrest].
    destruct fuel as [|fuel]; [cbn in Hfuel; lia|].
    cbn in Htasks.
    destruct (get_task_load_success HL w c p (map LoadFileTask rest) Hst Htasks Hp)
      as (ds & Hstep & Hq).
    rewrite consume_loop_iterate by (rewrite ?Htasks; congruence).
    rewrite Hstep. cbn [mbind result_bind].
    edestruct (IH fuel (mkWorker false)) as (w' & c' & Hloop & Ht & Hs & Hn & Hf' & He & Hc & Hg);
      [| | | exact Hrest | |].
    5: { exists w', c'. split; [exact Hloop|].
         split; [exact Ht|]. split.
         - rewrite Hs. cbn [src_manager set_src_manager].
           rewrite <- app_assoc. f_equal. cbn [app imap]. f_equal.
           + f_equal. lia.
           + apply imap_ext. intros i x _. cbn. rewrite length_app. cbn.
             f_equal. lia.
         - rewrite Hn, Hf', He, Hc, Hg. cbn.
           rewrite errors_of_app, Hq, app_nil_r. auto 10. }
    + exact Hst.
    + exact Hf.
    + reflexivity.
    + cbn in Hfuel. lia.
Qed.

End LoadAll.

(** C3. In single-threaded mode, [loadFiles] on a fresh context with [n]
    paths that all load registers exactly [n] sources; the source at
    position [i] carries the identifier [i], the [i]-th path and that file's
    contents, so the identifiers are [0, ..., n-1] without gaps and the
    insertion order is the order of the paths. No error is counted and the
    task group is no longer running. *)
Theorem loads_are_dense_and_ordered `{FS : FileSystem} `{H : Header} `{T : Tokenizer}
        (cfg : Config) (c0 : Context) (file_paths : list string) (fuel : nat) :
  HeaderLaws ->
  new_Context cfg = Ok c0 ->
  isSingleThreaded c0 = true ->
  forallb is_readable file_paths = true ->
  length file_paths <= fuel ->
  exists c',
    loadFiles fuel file_paths c0 = Ok c'
    /\ length (src_manager c') = length file_paths
    /\ map id (src_manager c') = seq 0 (length file_paths)
    /\ map path (src_manager c') = file_paths
    /\ ids_are_positions (src_manager c')
    /\ src_manager c'
       = imap (fun i p => mkSource i p (file_contents p) TokenBuf.empty) file_paths
    /\ num_errors c' = 0%N
    /\ task_group_running c' = false.
Proof.
  intros HL Hnew Hst Hread Hfuel.
  unfold new_Context in Hnew. apply bind_Ok in Hnew as (u & _ & Hnew).
  inversion Hnew; subst c0; clear Hnew.
  rewrite loadFiles_unfold by (exact Hst || reflexivity).
  match goal with
  | |- context [consume_loop fuel ?w ?c] =>
      destruct (drain_of_readable_loads HL file_paths fuel w c
                  Hst eq_refl eq_refl Hread Hfuel)
        as (w' & c' & Hloop & Ht & Hs & Hn & Hf & He & Hc & Hg)
  end.
  rewrite Hloop. cbn [mbind result_bind].
  eexists. split; [reflexivity|].
  cbn [src_manager set_task_group_running num_errors task_group_running].
  cbn in Hs. rewrite Hs, Hn.
  assert (Hids : forall (l : list string) (b : nat),
             map id (imap (fun i p => mkSource (b + i) p (file_contents p) TokenBuf.empty) l)
             = seq b (length l)).
  { induction l as [|x l IHl]; intros b; [reflexivity|].
    cbn. f_equal; [lia|]. rewrite <- IHl. f_equal. apply imap_ext.
    intros i y _. cbn. f_equal. lia. }
  assert (Hpaths : forall (l : list string) (b : nat),
             map path (imap (fun i p => mkSource (b + i) p (file_contents p) TokenBuf.empty) l)
             = l).
  { induction l as [|x l IHl]; intros b; [reflexivity|].
    cbn. f_equal. rewrite <- (IHl (S b)) at 2. f_equal. apply imap_ext.
    intros i y _. cbn. f_equal. lia. }
  split; [rewrite length_imap; reflexivity|].
  split; [apply (Hids file_paths 0)|].
  split; [apply (Hpaths file_paths 0)|].
  split.
  { intros i s Hi. rewrite list_lookup_imap in Hi.
    apply fmap_Some in Hi as (p & _ & ->). reflexivity. }
  repeat split; reflexivity.
Qed.

Lemma loads_are_dense_and_ordered_witness :
  exists c',
    loadFiles (FS := Scenario.disk) (H := Scenario.forwarding_header)
              (T := Scenario.silent_tokenizer)
              2 ["a.x"; "b.x"] (Scenario.fresh 10) = Ok c'
    /\ map id (src_manager c') = [0; 1]
    /\ map path (src_manager c') = ["a.x"; "b.x"]
    /\ num_errors c' = 0%N
    /\ task_group_running c' = false.
Proof.
  destruct (loads_are_dense_and_ordered
              (FS := Scenario.disk) (H := Scenario.forwarding_header)
              (T := Scenario.silent_tokenizer)
              (Scenario.single_threaded 10) (Scenario.fresh 10) ["a.x"; "b.x"] 2
              forwarding_header_laws eq_refl eq_refl eq_refl (le_n 2))
    as (c' & Hload & _ & Hids & Hpaths & _ & _ & Hn & Hg).
  exists c'. auto.
Defined.

(** ** Any task, under the assumptions on the collaborators *)

Section AnyTask.
Context `{FS : FileSystem} `{H : Header} `{T : Tokenizer}.
Context (HL : HeaderLaws) (TL : TokenizerLaws).

(** The two exits of [run_tokenize_file]. *)
Lemma run_tokenize_file_failure (sid : SourceID) (c : Context) :
  snd (tokenize c sid) = None ->
  run_tokenize_file sid c = Ok (fst (tokenize c sid), false).
Proof.
  unfold run_tokenize_file. destruct (tokenize c sid) as [c1 res]. cbn.
  intros ->. reflexivity.
Qed.

Lemma run_tokenize_file_success (sid : SourceID) (c : Context)
      (tb : TokenBuf.TokenBuffer) (s : Source) :
  snd (tokenize c sid) = Some tb ->
  getSource (src_manager c) sid = Some s ->
  exists ds,
    run_tokenize_file sid c
    = Ok (set_delivered
            (delivered (fst (tokenize c sid)) ++ ds)
            (set_src_manager
               (<[sid := mkSource (id s) (path s) (data s) (fst (TokenBuf.move_construct tb))]>
                  (src_manager c))
               (fst (tokenize c sid))), true)
    /\ errors_of ds = [].
Proof.
  intros Hres Hsrc. unfold run_tokenize_file.
  pose proof (tokenize_frame TL c sid) as (_ & _ & _ & _ & Hsame & _).
  destruct (tokenize c sid) as [c1 res]. cbn in *. subst res.
  rewrite Hsame, Hsrc.
  match goal with
  | |- context [emitTrace ?m ?c2] =>
      destruct (emitTrace_effect HL m c2) as (ds & -> & Hq)
  end.
  exists ds. split; [reflexivity | assumption].
Qed.

(** A task within the contract of its handler runs to completion; it leaves
    the configuration, the queue and the running flag alone, keeps every
    source in its place, and never lowers the fail flag. *)
Lemma run_task_completes (t : Task) (c : Context) :
  task_in_range c t ->
  exists c1,
    run_task t c = Ok c1
    /\ config c1 = config c
    /\ tasks c1 = tasks c
    /\ task_group_running c1 = task_group_running c
    /\ length (src_manager c) <= length (src_manager c1)
    /\ (hit_fail_condition c = true -> hit_fail_condition c1 = true).
Proof.
  intros Hrange. unfold run_task, visit.
  destruct t as [p|sid].
  - destruct (is_readable p) eqn:Hr.
    + destruct (run_load_file_success HL p c Hr) as (ds & -> & _).
      eexists. split; [reflexivity|]. cbn. rewrite length_app. cbn.
      repeat split; auto; lia.
    + rewrite (run_load_file_failure HL p c Hr). cbn [mbind result_bind].
      eexists. split; [reflexivity|].
      match goal with
      | |- context [notify_task_errored ?c1] =>
          destruct (notify_task_errored_fields c1)
            as ((Hc & _ & _ & Ht & Hs & Hg) & _ & _ & Hf)
      end.
      rewrite Hc, Ht, Hg, Hs. cbn. repeat split; auto.
      intros Hfail. apply Hf. left. exact Hfail.
  - cbn in Hrange.
    pose proof (tokenize_frame TL c sid) as (Hc & _ & _ & Ht & Hs & Hg).
    pose proof (tokenize_keeps_fail TL c sid) as Hkeep.
    destruct (snd (tokenize c sid)) as [tb|] eqn:Hres.
    + destruct (lookup_lt_is_Some_2 (src_manager c) sid Hrange) as [s Hsrc].
      destruct (run_tokenize_file_success sid c tb s Hres Hsrc) as (ds & -> & _).
      eexists. split; [reflexivity|]. cbn. rewrite length_insert.
      repeat split; auto.
    + rewrite (run_tokenize_file_failure sid c Hres). cbn [mbind result_bind].
      eexists. split; [reflexivity|].
      match goal with
      | |- context [notify_task_errored ?c1] =>
          destruct (notify_task_errored_fields c1)
            as ((Hc' & _ & _ & Ht' & Hs' & Hg') & _ & _ & Hf)
      end.
      rewrite Hc', Ht', Hg', Hs', Hc, Ht, Hg, Hs. repeat split; auto.
      intros Hfail. apply Hf. left. auto.
Qed.

(** What one call of [get_task_single_threaded] on a non-empty queue is. *)
Lemma get_task_pops (w : Worker) (c : Context) (t : Task) (rest : list Task) :
  isSingleThreaded c = true ->
  tasks c = t :: rest ->
  get_task_single_threaded w c
  = run_task t (set_tasks rest c) ≫= fun c1 => Ok (mkWorker false, c1).
Proof.
  intros Hst Htasks. unfold get_task_single_threaded. rewrite Hst, Htasks. reflexivity.
Qed.

Lemma get_task_inversion (w w' : Worker) (c c' : Context) :
  tasks c <> [] ->
  get_task_single_threaded w c = Ok (w', c') ->
  exists t rest,
    tasks c = t :: rest
    /\ isSingleThreaded c = true
    /\ run_task t (set_tasks rest c) = Ok c'.
Proof.
  intros Hne Hget. unfold get_task_single_threaded in Hget.
  apply bind_Ok in Hget as (u & Hassert & Hget). apply debugAssert_Ok in Hassert.
  apply bind_Ok in Hget as (c1 & Hrun & Hok).
  destruct (tasks c) as [|t rest]; [congruence|].
  exists t, rest. inversion Hok; subst. auto.
Qed.

(** The drain of a queue whose tasks are within contract: it returns with
    enough fuel, and what is left of the queue is a suffix of it. *)
Lemma drain_completes (ts : list Task) :
  forall fuel w c,
    isSingleThreaded c = true ->
    tasks c = ts ->
    Forall (task_in_range c) ts ->
    length ts <= fuel ->
    exists w' c',
      consume_loop fuel w c = Ok (w', c')
      /\ (tasks c' = [] \/ hit_fail_condition c' = true)
      /\ (exists k, tasks c' = drop k ts)
      /\ config c' = config c
      /\ task_group_running c' = task_group_running c
      /\ (hit_fail_condition c = true -> hit_fail_condition c' = true).
Proof.
  induction ts as [|t rest IH]; intros fuel w c Hst Htasks Hrange Hfuel.
  - exists w, c. rewrite consume_loop_exit by (left; exact Htasks).
    repeat split; auto. exists 0. exact Htasks.
  - destruct (hit_fail_condition c) eqn:Hf.
    { exists w, c. rewrite consume_loop_exit by (right; exact Hf).
      repeat split; auto. exists 0. exact Htasks. }
    destruct fuel as [|fuel]; [cbn in Hfuel; lia|].
    rewrite consume_loop_iterate by (rewrite ?Htasks; congruence).
    rewrite (get_task_pops w c t rest Hst Htasks).
    inversion Hrange as [|? ? Ht Hrest]; subst.
    destruct (run_task_completes t (set_tasks rest c)) as (c1 & -> & Hc & Ht1 & Hg & Hlen & _).
    { destruct t; cbn in *; auto. }
    cbn [mbind result_bind].
    destruct (IH fuel (mkWorker false) c1) as (w' & c' & Hloop & Hend & (k & Hk) & Hc' & Hg' & _).
    + unfold isSingleThreaded in *. rewrite Hc. exact Hst.
    + exact Ht1.
    + eapply Forall_impl; [exact Hrest|].
      intros [p|sid]; cbn; [auto|]. cbn in Hlen. lia.
    + cbn in Hfuel. lia.
    + exists w', c'. split; [exact Hloop|]. split; [exact Hend|].
      split; [exists (S k); exact Hk|].
      rewrite Hc', Hg', Hc, Hg. repeat split; auto. discriminate.
Qed.

End AnyTask.

(** C5. The single-threaded drain of any queue returns (every iteration
    pops exactly one task, so fuel equal to the length of the queue is
    enough); on return the queue is empty or the fail condition is up, what
    is left of the queue is a suffix of the original, and
    [task_group_running] is false. *)
Theorem drain_terminates `{FS : FileSystem} `{H : Header} `{T : Tokenizer}
        (c : Context) (fuel : nat) :
  HeaderLaws -> TokenizerLaws ->
  isSingleThreaded c = true ->
  Forall (task_in_range c) (tasks c) ->
  length (tasks c) <= fuel ->
  (forall w t rest,
      tasks c = t :: rest ->
      exists w' c1, get_task_single_threaded w c = Ok (w', c1) /\ tasks c1 = rest)
  /\ exists c',
      consume_tasks_single_threaded fuel c = Ok c'
      /\ (tasks c' = [] \/ hit_fail_condition c' = true)
      /\ (exists k, tasks c' = drop k (tasks c))
      /\ task_group_running c' = false.
Proof.
  intros HL TL Hst Hrange Hfuel. split.
  - intros w t rest Htasks.
    rewrite (get_task_pops w c t rest Hst Htasks).
    rewrite Htasks in Hrange. inversion Hrange as [|? ? Ht _]; subst.
    destruct (run_task_completes HL TL t (set_tasks rest c)) as (c1 & -> & _ & Ht1 & _).
    { destruct t; cbn in *; auto. }
    exists (mkWorker false), c1. split; [reflexivity | exact Ht1].
  - rewrite consume_tasks_unfold by exact Hst.
    destruct (drain_completes HL TL (tasks c) fuel (mkWorker false) c Hst eq_refl Hrange Hfuel)
      as (w' & c' & -> & Hend & Hk & _).
    cbn [mbind result_bind]. eexists. split; [reflexivity|]. cbn. auto.
Qed.

Lemma drain_terminates_witness :
  exists c',
    consume_tasks_single_threaded
      (FS := Scenario.disk) (H := Scenario.forwarding_header)
      (T := Scenario.silent_tokenizer) 2 Scenario.queued = Ok c'
    /\ (tasks c' = [] \/ hit_fail_condition c' = true)
    /\ task_group_running c' = false.
Proof.
  assert (Hrange : Forall (task_in_range Scenario.queued) (tasks Scenario.queued))
    by (repeat constructor).
  destruct (drain_terminates
              (FS := Scenario.disk) (H := Scenario.forwarding_header)
              (T := Scenario.silent_tokenizer) Scenario.queued 2
              forwarding_header_laws silent_tokenizer_laws eq_refl
              Hrange (le_n 2))
    as (_ & c' & Hrun & Hend & _ & Hg).
  exists c'. auto.
Defined.

(** ** The error budget *)

Section Budget.
Context `{FS : FileSystem} `{H : Header} `{T : Tokenizer}.
Context (HL : HeaderLaws) (TL : TokenizerLaws) (TC : counts_own_failure).

Lemma within_budget_fields (c c' : Context) :
  config c' = config c ->
  num_errors c' = num_errors c ->
  hit_fail_condition c' = hit_fail_condition c ->
  within_budget c -> within_budget c'.
Proof. unfold within_budget. intros -> -> ->. auto. Qed.

(** After a failed task has been counted at most once and
    [notify_task_errored] has run, the budget still holds. *)
Lemma notify_within_budget (c c1 : Context) :
  within_budget c ->
  hit_fail_condition c = false ->
  config c1 = config c ->
  (num_errors c1 <= num_errors c + 1)%N ->
  within_budget (notify_task_errored c1).
Proof.
  intros [Hle Hup] Hf Hc Hn.
  destruct (notify_task_errored_fields c1) as ((Hc' & _) & Hn' & _ & Hf').
  unfold within_budget. rewrite Hc', Hn', Hc.
  assert (num_errors c < maxNumErrors (config c))%N as Hlt.
  { destruct (N.lt_ge_cases (num_errors c) (maxNumErrors (config c))) as [|Hge]; [assumption|].
    apply Hup in Hge. congruence. }
  split; [lia|]. intros Hmax. apply Hf'. right. rewrite Hc. exact Hmax.
Qed.

Lemma run_task_within_budget (t : Task) (c c' : Context) :
  within_budget c ->
  hit_fail_condition c = false ->
  run_task t c = Ok c' ->
  within_budget c'.
Proof.
  intros Hb Hf Hrun. unfold run_task, visit in Hrun.
  destruct t as [p|sid].
  - destruct (is_readable p) eqn:Hr.
    + destruct (run_load_file_success HL p c Hr) as (ds & Heq & _).
      rewrite Heq in Hrun. inversion Hrun; subst c'.
      eapply within_budget_fields; [| | | exact Hb]; reflexivity.
    + rewrite (run_load_file_failure HL p c Hr) in Hrun. inversion Hrun; subst c'.
      eapply notify_within_budget; [exact Hb | exact Hf | reflexivity |]. cbn. lia.
  - pose proof (tokenize_frame TL c sid) as (Hc & _ & _ & _ & Hs & _).
    destruct (snd (tokenize c sid)) as [tb|] eqn:Hres.
    + destruct (getSource (src_manager c) sid) as [s|] eqn:Hsrc.
      * destruct (run_tokenize_file_success HL TL sid c tb s Hres Hsrc) as (ds & Heq & _).
        rewrite Heq in Hrun. inversion Hrun; subst c'.
        destruct (TC c sid) as [Hn | [Hnone _]]; [|congruence].
        destruct Hb as [Hle Hup]. unfold within_budget. cbn. rewrite Hc, Hn.
        split; [exact Hle|]. intros Hmax. apply Hup in Hmax. congruence.
      * unfold run_tokenize_file in Hrun.
        destruct (tokenize c sid) as [c1 res]. cbn in *. subst res.
        rewrite Hs, Hsrc in Hrun. discriminate.
    + rewrite (run_tokenize_file_failure sid c Hres) in Hrun. inversion Hrun; subst c'.
      eapply notify_within_budget; [exact Hb | exact Hf | exact Hc |].
      destruct (TC c sid) as [Hn | [_ Hn]]; rewrite Hn; lia.
Qed.

Lemma step_within_budget (c c' : Context) :
  step c c' -> within_budget c -> within_budget c'.
Proof.
  intros Hstep Hb. destruct Hstep as [c paths Hg | c Hg | c c' w w' Hne Hf Hget | c].
  - eapply within_budget_fields; [| | | exact Hb]; reflexivity.
  - eapply within_budget_fields; [| | | exact Hb]; reflexivity.
  - apply get_task_inversion in Hget as (t & rest & Ht & _ & Hrun); [|exact Hne].
    eapply run_task_within_budget; [| |exact Hrun].
    + eapply within_budget_fields; [| | | exact Hb]; reflexivity.
    + exact Hf.
  - eapply within_budget_fields; [| | | exact Hb]; reflexivity.
Qed.

Lemma step_keeps_fail (c c' : Context) :
  step c c' -> hit_fail_condition c = true -> hit_fail_condition c' = true.
Proof.
  intros Hstep Hf. destruct Hstep as [c paths Hg | c Hg | c c' w w' Hne Hnf Hget | c];
    try exact Hf.
  unfold hasHitFailCondition in Hnf. congruence.
Qed.

Lemma step_keeps_budget_size (c c' : Context) :
  step c c' -> maxNumErrors (config c') = maxNumErrors (config c).
Proof.
  intros Hstep. destruct Hstep as [c paths Hg | c Hg | c c' w w' Hne Hf Hget | c];
    try reflexivity.
  apply get_task_inversion in Hget as (t & rest & Ht & _ & Hrun); [|exact Hne].
  unfold run_task, visit in Hrun.
  apply bind_Ok in Hrun as ([c1 ok] & Hvisit & Hrun).
  assert (config c1 = config c) as Hc1.
  { destruct t as [p|sid].
    - inversion Hvisit as [Hload]. destruct (is_readable p) eqn:Hr.
      + destruct (run_load_file_success HL p (set_tasks rest c) Hr) as (ds & Heq & _).
        rewrite Heq in Hload. inversion Hload; reflexivity.
      + rewrite (run_load_file_failure HL p _ Hr) in Hload. inversion Hload; reflexivity.
    - pose proof (tokenize_frame TL (set_tasks rest c) sid) as (Hc & _ & _ & _ & Hs & _).
      destruct (snd (tokenize (set_tasks rest c) sid)) as [tb|] eqn:Hres.
      + destruct (getSource (src_manager (set_tasks rest c)) sid) as [s|] eqn:Hsrc.
        * destruct (run_tokenize_file_success HL TL sid _ tb s Hres Hsrc) as (ds & Heq & _).
          rewrite Heq in Hvisit. inversion Hvisit; subst. cbn. exact Hc.
        * unfold run_tokenize_file in Hvisit.
          destruct (tokenize (set_tasks rest c) sid) as [c2 res]. cbn in *. subst res.
          rewrite Hs, Hsrc in Hvisit. discriminate.
      + rewrite (run_tokenize_file_failure sid _ Hres) in Hvisit.
        inversion Hvisit; subst. exact Hc. }
  destruct ok; inversion Hrun; subst c'.
  - rewrite Hc1. reflexivity.
  - destruct (notify_task_errored_fields c1) as ((Hc' & _) & _). rewrite Hc', Hc1. reflexivity.
Qed.

(** Every completed drain is a sequence of moves of the step relation. *)
Lemma consume_loop_is_a_run :
  forall fuel w c w' c',
    consume_loop fuel w c = Ok (w', c') -> rtc step c c'.
Proof.
  induction fuel as [|fuel IH]; intros w c w' c' Hloop;
    unfold consume_loop in Hloop; fold (consume_loop (FS := FS) (H := H) (T := T)) in Hloop;
    destruct (negb (bool_decide (tasks c = [])) && negb (hasHitFailCondition c)) eqn:Hcond;
    try discriminate; try (inversion Hloop; subst; apply rtc_refl).
  apply andb_prop in Hcond as [Hne Hf].
  apply negb_true_iff in Hne, Hf. apply bool_decide_eq_false in Hne.
  apply bind_Ok in Hloop as ([w1 c1] & Hget & Hloop).
  eapply rtc_l; [|eapply IH; exact Hloop].
  eapply step_task; eassumption.
Qed.

Lemma loadFiles_is_a_run (fuel : nat) (file_paths : list string) (c c' : Context) :
  isSingleThreaded c = true ->
  loadFiles fuel file_paths c = Ok c' -> rtc step c c'.
Proof.
  intros Hst Hload.
  destruct (task_group_running c) eqn:Hg.
  { unfold loadFiles in Hload. rewrite Hst, Hg in Hload. discriminate. }
  rewrite loadFiles_unfold in Hload by assumption.
  apply bind_Ok in Hload as ([w1 c1] & Hloop & Hend). inversion Hend; subst c'.
  eapply rtc_l; [apply (step_enqueue_loads c file_paths Hg)|].
  eapply rtc_r; [|apply step_drained].
  apply consume_loop_is_a_run in Hloop.
  destruct c; exact Hloop.
Qed.

Lemma tokenizeLoadedFiles_is_a_run (fuel : nat) (c c' : Context) :
  isSingleThreaded c = true ->
  tokenizeLoadedFiles fuel c = Ok c' -> rtc step c c'.
Proof.
  intros Hst Htok.
  destruct (task_group_running c) eqn:Hg.
  { unfold tokenizeLoadedFiles in Htok. rewrite Hg in Htok. discriminate. }
  rewrite tokenizeLoadedFiles_unfold in Htok by assumption.
  apply bind_Ok in Htok as ([w1 c1] & Hloop & Hend). inversion Hend; subst c'.
  eapply rtc_l; [apply (step_enqueue_tokenize c Hg)|].
  eapply rtc_r; [|apply step_drained].
  eapply consume_loop_is_a_run; exact Hloop.
Qed.

End Budget.




(** ** Tokenizing twice *)

Section Retokenize.
Context `{FS : FileSystem} `{H : Header} `{T : Tokenizer}.
Context (HL : HeaderLaws) (TL : TokenizerLaws) (TD : deterministic).

(** What a completed [TokenizeFile] task has done to the context. *)
Lemma run_task_tokenize_inversion (sid : SourceID) (c c' : Context) :
  run_task (TokenizeFileTask sid) c = Ok c' ->
  tasks c' = tasks c
  /\ config c' = config c
  /\ ((exists tb s,
         snd (tokenize c sid) = Some tb
         /\ getSource (src_manager c) sid = Some s
         /\ src_manager c'
            = <[sid := mkSource (id s) (path s) (data s)
                                (fst (TokenBuf.move_construct tb))]> (src_manager c))
      \/ (snd (tokenize c sid) = None /\ src_manager c' = src_manager c)).
Proof.
  intros Hrun. unfold run_task, visit in Hrun.
  pose proof (tokenize_frame TL c sid) as (Hc & _ & _ & Ht & Hs & _).
  destruct (snd (tokenize c sid)) as [tb|] eqn:Hres.
  - destruct (getSource (src_manager c) sid) as [s|] eqn:Hsrc.
    + destruct (run_tokenize_file_success HL TL sid c tb s Hres Hsrc) as (ds & Heq & _).
      rewrite Heq in Hrun. inversion Hrun; subst c'. cbn.
      split; [exact Ht|]. split; [exact Hc|]. left. exists tb, s. auto.
    + unfold run_tokenize_file in Hrun.
      destruct (tokenize c sid) as [c1 res]. cbn in *. subst res.
      rewrite Hs, Hsrc in Hrun. discriminate.
  - rewrite (run_tokenize_file_failure sid c Hres) in Hrun. inversion Hrun; subst c'.
    destruct (notify_task_errored_fields (fst (tokenize c sid)))
      as ((Hc' & _ & _ & Ht' & Hs' & _) & _).
    rewrite Ht', Hc', Hs', Ht, Hc, Hs. auto.
Qed.

(** The queue [tokenizeLoadedFiles] builds, when identifiers are positions. *)
Lemma tokenize_tasks_of_positions (ss : list Source) :
  ids_are_positions ss ->
  map (fun s => TokenizeFileTask (getID s)) ss = map TokenizeFileTask (seq 0 (length ss)).
Proof.
  intros Hids. apply list_eq. intros i.
  rewrite !list_lookup_fmap.
  destruct (ss !! i) as [s|] eqn:Hs.
  - rewrite lookup_seq_lt by (eapply lookup_lt_Some; eassumption).
    cbn. unfold getID. rewrite (Hids i s Hs). reflexivity.
  - rewrite lookup_seq_ge by (apply lookup_ge_None; assumption). reflexivity.
Qed.

(** The source installed for a fresh result of the tokenizer is settled. *)
Lemma installed_is_settled (c : Context) (sid : SourceID) (s : Source)
      (tb : TokenBuf.TokenBuffer) :
  getSource (src_manager c) sid = Some s ->
  snd (tokenize c sid) = Some tb ->
  settled sid (mkSource (id s) (path s) (data s) (fst (TokenBuf.move_construct tb))).
Proof.
  intros Hsrc Hres c' s' tb' Hsrc' Hdata Hres'. cbn in Hdata.
  rewrite (TD c' c sid s' s Hsrc' Hsrc Hdata), Hres in Hres'.
  inversion Hres'; reflexivity.
Qed.

(** A source the tokenizer rejects is settled as it stands. *)
Lemma rejected_is_settled (c : Context) (sid : SourceID) (s : Source) :
  getSource (src_manager c) sid = Some s ->
  snd (tokenize c sid) = None ->
  settled sid s.
Proof.
  intros Hsrc Hres c' s' tb' Hsrc' Hdata Hres'.
  rewrite (TD c' c sid s' s Hsrc' Hsrc Hdata), Hres in Hres'. discriminate.
Qed.

(** The first drain: when it returns with the fail condition down, it has
    gone through the whole queue and every source is settled. *)
Lemma first_drain_settles (m : nat) :
  forall k fuel w c w' c',
    tasks c = map TokenizeFileTask (seq k m) ->
    k + m = length (src_manager c) ->
    ids_are_positions (src_manager c) ->
    (forall i s, i < k -> src_manager c !! i = Some s -> settled i s) ->
    consume_loop fuel w c = Ok (w', c') ->
    hit_fail_condition c' = false ->
    tasks c' = []
    /\ config c' = config c
    /\ length (src_manager c') = length (src_manager c)
    /\ ids_are_positions (src_manager c')
    /\ (forall i s, src_manager c' !! i = Some s -> settled i s).
Proof.
  induction m as [|m IH]; intros k fuel w c w' c' Htasks Hlen Hids Hset Hloop Hclean.
  - rewrite consume_loop_exit in Hloop by (left; exact Htasks).
    inversion Hloop; subst. repeat split; auto.
    intros i s Hi. apply Hset; [|exact Hi]. apply lookup_lt_Some in Hi. lia.
  - cbn in Htasks.
    destruct (hit_fail_condition c) eqn:Hf.
    { rewrite consume_loop_exit in Hloop by (right; exact Hf).
      inversion Hloop; subst. congruence. }
    destruct fuel as [|fuel].
    { unfold consume_loop in Hloop. unfold hasHitFailCondition in Hloop.
      rewrite Htasks, Hf in Hloop. discriminate. }
    rewrite consume_loop_iterate in Hloop by (rewrite ?Htasks; congruence).
    apply bind_Ok in Hloop as ([w1 c1] & Hget & Hloop).
    apply get_task_inversion in Hget as (t & rest & Ht & Hst & Hrun);
      [|rewrite Htasks; congruence].
    rewrite Htasks in Ht. inversion Ht; subst t rest; clear Ht.
    apply run_task_tokenize_inversion in Hrun as (Ht1 & Hc1 & Hcases).
    assert (Hstep : length (src_manager c1) = length (src_manager c)
                    /\ ids_are_positions (src_manager c1)
                    /\ (forall i s, i < S k -> src_manager c1 !! i = Some s -> settled i s)).
    { destruct Hcases as [(tb & s & Hres & Hsrc & Heq) | (Hres & Heq)]; rewrite Heq.
      - cbn in Hsrc. split; [apply length_insert|]. split.
        + intros i x Hi. destruct (decide (i = k)) as [->|Hne].
          * rewrite list_lookup_insert_eq in Hi by (eapply lookup_lt_Some; exact Hsrc).
            inversion Hi; subst x. cbn. apply (Hids k s Hsrc).
          * rewrite list_lookup_insert_ne in Hi by congruence. apply (Hids i x Hi).
        + intros i x Hlt Hi. destruct (decide (i = k)) as [->|Hne].
          * rewrite list_lookup_insert_eq in Hi by (eapply lookup_lt_Some; exact Hsrc).
            inversion Hi; subst x.
            eapply installed_is_settled; [|exact Hres]. exact Hsrc.
          * rewrite list_lookup_insert_ne in Hi by congruence.
            apply Hset; [lia | exact Hi].
      - split; [reflexivity|]. split; [exact Hids|].
        intros i x Hlt Hi. destruct (decide (i = k)) as [->|Hne].
        + eapply rejected_is_settled; [|exact Hres]. exact Hi.
        + apply Hset; [lia | exact Hi]. }
    destruct Hstep as (Hlen1 & Hids1 & Hset1).
    cbn in Ht1, Hc1.
    destruct (IH (S k) fuel w1 c1 w' c') as (He & Hc & Hl & Hi & Hs); auto.
    + rewrite Hlen1. lia.
    + repeat split; auto; congruence.
Qed.

(** A drain over settled sources returns and leaves every source as it is. *)
Lemma settled_drain_is_idle (m : nat) :
  forall k fuel w c,
    isSingleThreaded c = true ->
    tasks c = map TokenizeFileTask (seq k m) ->
    k + m <= length (src_manager c) ->
    (forall i s, src_manager c !! i = Some s -> settled i s) ->
    m <= fuel ->
    exists w' c',
      consume_loop fuel w c = Ok (w', c')
      /\ src_manager c' = src_manager c.
Proof.
  induction m as [|m IH]; intros k fuel w c Hst Htasks Hlen Hset Hfuel.
  - exists w, c. rewrite consume_loop_exit by (left; exact Htasks). auto.
  - cbn in Htasks.
    destruct (hit_fail_condition c) eqn:Hf.
    { exists w, c. rewrite consume_loop_exit by (right; exact Hf). auto. }
    destruct fuel as [|fuel]; [lia|].
    rewrite consume_loop_iterate by (rewrite ?Htasks; congruence).
    rewrite (get_task_pops w c _ _ Hst Htasks).
    destruct (run_task_completes HL TL (TokenizeFileTask k)
                (set_tasks (map TokenizeFileTask (seq (S k) m)) c))
      as (c1 & Hrun & Hc & Ht & _).
    { cbn. lia. }
    rewrite Hrun. cbn [mbind result_bind].
    apply run_task_tokenize_inversion in Hrun as (_ & _ & Hcases).
    assert (Hsame : src_manager c1 = src_manager c).
    { destruct Hcases as [(tb & s & Hres & Hsrc & Heq) | (_ & Heq)]; [|exact Heq].
      rewrite Heq.
      pose proof (Hset k s Hsrc (set_tasks (map TokenizeFileTask (seq (S k) m)) c) s tb
                    Hsrc eq_refl Hres) as Hbuf.
      rewrite <- Hbuf.
      change (src_manager (set_tasks _ c)) with (src_manager c) in Hsrc |- *.
      apply list_insert_id. destruct s; exact Hsrc. }
    destruct (IH (S k) fuel (mkWorker false) c1) as (w' & c' & Hloop & Heq).
    + unfold isSingleThreaded in *. rewrite Hc. exact Hst.
    + exact Ht.
    + rewrite Hsame. lia.
    + rewrite Hsame. exact Hset.
    + lia.
    + exists w', c'. split; [exact Hloop|]. rewrite Heq. exact Hsame.
Qed.

End Retokenize.

(** C8. With a tokenizer whose result depends on the bytes of the source
    only: after sources have been loaded (identifiers are positions, nothing
    is queued) and a first [tokenizeLoadedFiles] has returned without the
    fail condition, a second [tokenizeLoadedFiles] returns too and leaves the
    source manager as it was, so every source has a token buffer with the
    same tokens, the same string literals, the same length and the same lock
    flag as after the first run. *)
Theorem retokenizing_installs_equal_buffers
        `{FS : FileSystem} `{H : Header} `{T : Tokenizer}
        (c0 c1 : Context) (fuel : nat) :
  HeaderLaws -> TokenizerLaws -> deterministic ->
  isSingleThreaded c0 = true ->
  tasks c0 = [] ->
  ids_are_positions (src_manager c0) ->
  length (src_manager c0) <= fuel ->
  tokenizeLoadedFiles fuel c0 = Ok c1 ->
  hit_fail_condition c1 = false ->
  exists c2,
    tokenizeLoadedFiles fuel c1 = Ok c2
    /\ map token_buffer (src_manager c2) = map token_buffer (src_manager c1)
    /\ map (fun s => TokenBuf.size (token_buffer s)) (src_manager c2)
       = map (fun s => TokenBuf.size (token_buffer s)) (src_manager c1)
    /\ src_manager c2 = src_manager c1.
Proof.
  intros HL TL TD Hst Hempty Hids Hfuel Hfirst Hclean.
  destruct (task_group_running c0) eqn:Hg.
  { unfold tokenizeLoadedFiles in Hfirst. rewrite Hg in Hfirst. discriminate. }
  rewrite tokenizeLoadedFiles_unfold in Hfirst by assumption.
  apply bind_Ok in Hfirst as ([w1 cB] & Hloop & Hend). inversion Hend; subst c1; clear Hend.
  cbn in Hclean.
  eapply (first_drain_settles HL TL TD (length (src_manager c0)) 0) in Hloop
    as (Hq & Hc & Hlen & Hids' & Hset); [| | | | |exact Hclean].
  - assert (Hst' : isSingleThreaded (set_task_group_running false cB) = true).
    { unfold isSingleThreaded in *. cbn. rewrite Hc. exact Hst. }
    rewrite tokenizeLoadedFiles_unfold by (exact Hst' || reflexivity).
    match goal with
    | |- context [consume_loop fuel ?w ?c] =>
        destruct (settled_drain_is_idle HL TL (length (src_manager cB)) 0 fuel w c)
          as (w' & c' & Hloop' & Hsame)
    end.
    + exact Hst'.
    + cbn. rewrite Hq. cbn. apply tokenize_tasks_of_positions. exact Hids'.
    + cbn. lia.
    + exact Hset.
    + rewrite Hlen. exact Hfuel.
    + rewrite Hloop'. cbn [mbind result_bind]. eexists. split; [reflexivity|].
      cbn in Hsame |- *. rewrite Hsame. auto.
  - cbn. rewrite Hempty. cbn. apply tokenize_tasks_of_positions. exact Hids.
  - reflexivity.
  - exact Hids.
  - intros i s Hlt. lia.
Qed.

Lemma retokenizing_installs_equal_buffers_witness :
  tokenizeLoadedFiles (FS := Scenario.disk) (H := Scenario.forwarding_header)
                      (T := Scenario.size_tokenizer) 2 Scenario.two_loaded
  = Ok Scenario.two_tokenized
  /\ exists c2,
      tokenizeLoadedFiles (FS := Scenario.disk) (H := Scenario.forwarding_header)
                          (T := Scenario.size_tokenizer) 2 Scenario.two_tokenized
      = Ok c2
      /\ map token_buffer (src_manager c2)
         = [Scenario.size_buffer 0 5; Scenario.size_buffer 1 4].
Proof.
  assert (Hids : ids_are_positions (src_manager Scenario.two_loaded)).
  { intros [|[|i]] s Hi; cbn in Hi; inversion Hi; reflexivity. }
  split; [reflexivity|].
  destruct (retokenizing_installs_equal_buffers
              (FS := Scenario.disk) (H := Scenario.forwarding_header)
              (T := Scenario.size_tokenizer)
              Scenario.two_loaded Scenario.two_tokenized 2
              forwarding_header_laws size_tokenizer_laws size_tokenizer_deterministic
              eq_refl eq_refl Hids (le_n 2) eq_refl eq_refl)
    as (c2 & Hrun & Hbuf & _).
  exists c2. split; [exact Hrun | exact Hbuf].
Defined.

(** ** The default diagnostic callback *)

Lemma head_char_of_list (l : list ascii) :
  head_char (string_of_list_ascii l) = head l.
Proof. destruct l; reflexivity. Qed.

(** The pointer line starts with a blank, a caret or the line feed. *)
Lemma pointer_text_head (loc : Location) (pc : N) (line : list ascii) :
  head_char (pointer_text loc pc line) <> Some "<"%char.
Proof.
  unfold pointer_text. rewrite head_char_of_list.
  destruct (pointer_indent pc); cbn; [|discriminate].
  destruct (lineStart loc =? lineEnd loc)%N.
  - destruct (single_line_carets loc); cbn; discriminate.
  - unfold multi_line_mark. destruct (N.to_nat _); cbn; discriminate.
Qed.

Lemma pointer_str_Ok (loc : Location) (pc : N) (line : list ascii) (pointer : string) :
  pointer_str loc pc line = Ok pointer ->
  ((pc + two64 - 1) mod two64 < string_limit)%N /\ pointer = pointer_text loc pc line.
Proof.
  unfold pointer_str. destruct (string_limit <=? _)%N eqn:Hl; [discriminate|].
  apply N.leb_gt in Hl. intros Hp. inversion Hp. auto.
Qed.

Lemma pointer_str_head (loc : Location) (pc : N) (line : list ascii) (pointer : string) :
  pointer_str loc pc line = Ok pointer -> head_char pointer <> Some "<"%char.
Proof. intros Hp. apply pointer_str_Ok in Hp as [_ ->]. apply pointer_text_head. Qed.

(** ** What the callback has printed when it ends *)

Lemma fst_and_then {A B : Type} (x : Run A) (k : A -> Run B) :
  fst (and_then x k)
  = fst x ++ match snd x with Ok a => fst (k a) | _ => [] end.
Proof. unfold and_then. destruct (snd x); cbn; rewrite ?app_nil_r; reflexivity. Qed.

Lemma completed_and_then {A : Type} (x : Run A) (k : A -> Run unit) :
  completed (and_then x k)
  = match snd x with
    | Ok a => match completed (k a) with
              | Ok calls => Ok (fst x ++ calls)
              | ContractViolation => ContractViolation
              | OutOfFuel => OutOfFuel
              | Terminated => Terminated
              end
    | ContractViolation => ContractViolation
    | OutOfFuel => OutOfFuel
    | Terminated => Terminated
    end.
Proof.
  unfold completed, and_then. destruct (snd x) as [a| | |]; cbn; try reflexivity.
  destruct (snd (k a)); reflexivity.
Qed.

(** A run of [print_location] that completes has printed what
    [print_location] returns, and ends the same way otherwise. *)
Lemma print_location_run_completed (source : Source) (lvl : Level) (loc : Location) :
  completed (print_location_run source lvl loc) = print_location source lvl loc.
Proof.
  unfold print_location_run, print_location, completed, and_then, say, quiet.
  cbn [fst snd].
  destruct (scan_source (list_ascii_of_string (data source)) loc) as [st| | |];
    cbn [fst snd mbind result_bind]; try reflexivity.
  destruct (pointer_str loc (point_collumn st) (line_str st)) as [pointer| | |];
    cbn [fst snd mbind result_bind app]; reflexivity.
Qed.

(** Whatever [print_location] gets to print, nothing of it starts with [<]. *)
Lemma print_location_run_heads (source : Source) (lvl : Level) (loc : Location) :
  Forall (fun call => head_char (snd call) <> Some "<"%char)
         (fst (print_location_run source lvl loc)).
Proof.
  unfold print_location_run, and_then, say, quiet. cbn [fst snd].
  destruct (scan_source (list_ascii_of_string (data source)) loc) as [st| | |];
    cbn [fst snd app]; try (repeat constructor; cbn; discriminate).
  destruct (pointer_str loc (point_collumn st) (line_str st)) as [pointer| | |] eqn:Hptr;
    cbn [fst snd app]; repeat constructor; cbn; try discriminate.
  eapply pointer_str_head; exact Hptr.
Qed.

(** When the scan and the pointer line succeed, the pointer line is printed
    on the printer method of the level. *)
Lemma print_location_run_pointer (source : Source) (lvl : Level) (loc : Location)
      (st : LineScan) (pointer : string) :
  scan_source (list_ascii_of_string (data source)) loc = Ok st ->
  pointer_str loc (point_collumn st) (line_str st) = Ok pointer ->
  In (level_method lvl, pointer) (fst (print_location_run source lvl loc))
  /\ snd (print_location_run source lvl loc) = Ok tt.
Proof.
  intros Hscan Hptr.
  unfold print_location_run, and_then, say, quiet. cbn [fst snd].
  rewrite Hscan. cbn [fst snd]. rewrite Hptr. cbn [fst snd app].
  split; [|reflexivity]. cbn. auto.
Qed.

Section CallbackFacts.
Context `{F : Formatters}.

Lemma diagnostic_message_head (d : Diagnostic) :
  head_char (diagnostic_message d) = Some "<"%char.
Proof. reflexivity. Qed.

Lemma print_source_location_run_completed (c : Context) (lvl : Level) (loc : Location) :
  completed (print_source_location_run c lvl loc) = print_source_location c lvl loc.
Proof.
  unfold print_source_location_run, print_source_location.
  rewrite completed_and_then. unfold quiet. cbn [fst snd].
  destruct (getSource (src_manager c) (sourceID loc)) as [source|]; [|reflexivity].
  rewrite print_location_run_completed.
  destruct (print_location source lvl loc); reflexivity.
Qed.

Lemma print_source_location_run_heads (c : Context) (lvl : Level) (loc : Location) :
  Forall (fun call => head_char (snd call) <> Some "<"%char)
         (fst (print_source_location_run c lvl loc)).
Proof.
  unfold print_source_location_run. rewrite fst_and_then. unfold quiet. cbn [fst snd app].
  destruct (getSource (src_manager c) (sourceID loc)) as [source|]; [|constructor].
  apply print_location_run_heads.
Qed.

Lemma print_source_location_run_pointer (c : Context) (lvl : Level) (loc : Location)
      (source : Source) (st : LineScan) (pointer : string) :
  getSource (src_manager c) (sourceID loc) = Some source ->
  scan_source (list_ascii_of_string (data source)) loc = Ok st ->
  pointer_str loc (point_collumn st) (line_str st) = Ok pointer ->
  In (level_method lvl, pointer) (fst (print_source_location_run c lvl loc)).
Proof.
  intros Hsrc Hscan Hptr.
  unfold print_source_location_run. rewrite fst_and_then. unfold quiet. cbn [fst snd app].
  rewrite Hsrc. eapply print_location_run_pointer; eassumption.
Qed.

Lemma print_infos_run_completed (c : Context) (infs : list DiagnosticInfo) :
  completed (print_infos_run c infs) = print_infos c infs.
Proof.
  induction infs as [|info rest IH]; [reflexivity|].
  cbn [print_infos_run print_infos].
  rewrite completed_and_then. unfold say at 1. cbn [fst snd].
  rewrite completed_and_then, IH.
  destruct (info_location info) as [loc|].
  - pose proof (print_source_location_run_completed c Info loc) as Hhere.
    unfold completed in Hhere.
    destruct (snd (print_source_location_run c Info loc)) as [[]| | |];
      rewrite <- Hhere; cbn [mbind result_bind]; try reflexivity.
    destruct (print_infos c rest); reflexivity.
  - cbn [fst snd mbind result_bind]. destruct (print_infos c rest); reflexivity.
Qed.

Lemma print_infos_run_heads (c : Context) (infs : list DiagnosticInfo) :
  Forall (fun call => head_char (snd call) <> Some "<"%char)
         (fst (print_infos_run c infs)).
Proof.
  induction infs as [|info rest IH]; [constructor|].
  cbn [print_infos_run]. rewrite fst_and_then. unfold say at 1. cbn [fst snd].
  constructor; [cbn; discriminate|]. cbn [app].
  rewrite fst_and_then. apply Forall_app. split.
  - destruct (info_location info) as [loc|]; [|constructor].
    apply print_source_location_run_heads.
  - destruct (snd _); [exact IH | constructor ..].
Qed.

(** The run and the callback agree: a run that completes has printed what
    the callback returns, and one that does not ends the way it does. *)
Lemma default_diagnostic_callback_run_completed (c : Context) (d : Diagnostic) :
  completed (default_diagnostic_callback_run c d) = default_diagnostic_callback c d.
Proof.
  unfold default_diagnostic_callback_run, default_diagnostic_callback.
  rewrite completed_and_then. cbn [fst snd].
  rewrite completed_and_then, print_infos_run_completed.
  destruct (location d) as [loc|].
  - pose proof (print_source_location_run_completed c (level d) loc) as Hhere.
    unfold completed in Hhere.
    destruct (snd (print_source_location_run c (level d) loc)) as [[]| | |];
      rewrite <- Hhere; cbn [mbind result_bind]; try reflexivity.
    destruct (print_infos c (infos d)); reflexivity.
  - cbn [fst snd mbind result_bind]. destruct (print_infos c (infos d)); reflexivity.
Qed.

(** What the callback prints after the header: nothing that starts with [<]. *)
Lemma after_header_heads (c : Context) (d : Diagnostic) :
  exists rest,
    fst (default_diagnostic_callback_run c d) = print_header d ++ rest
    /\ Forall (fun call => head_char (snd call) <> Some "<"%char) rest
    /\ (forall loc source st pointer,
          location d = Some loc ->
          getSource (src_manager c) (sourceID loc) = Some source ->
          scan_source (list_ascii_of_string (data source)) loc = Ok st ->
          pointer_str loc (point_collumn st) (line_str st) = Ok pointer ->
          In (level_method (level d), pointer) rest).
Proof.
  unfold default_diagnostic_callback_run. rewrite fst_and_then. cbn [fst snd].
  eexists. split; [reflexivity|]. rewrite fst_and_then. split.
  - apply Forall_app. split.
    + destruct (location d) as [loc|]; [|constructor].
      apply print_source_location_run_heads.
    + destruct (snd _); [apply print_infos_run_heads | constructor ..].
  - intros loc source st pointer Hd Hsrc Hscan Hptr. rewrite Hd.
    apply in_or_app. left.
    eapply print_source_location_run_pointer; eassumption.
Qed.

End CallbackFacts.

(** C10. For every diagnostic, whatever the default callback goes on to do
    and however it ends, what it has sent to the printer contains the header
    line [<level|code> message] if and only if the level is [Fatal], [Error]
    or [Warning], and then as the first call, on [printFatal], [printError]
    or [printWarning] respectively. For an [Info] diagnostic nothing that is
    printed starts with [<]; if it has a location whose source is held,
    whose line is found and whose pointer line can be built, that pointer
    line is still printed, on [printInfo]. A run that completes has printed
    what [default_diagnostic_callback] returns. *)
Theorem header_only_above_info `{F : Formatters} (c : Context) (d : Diagnostic) :
  let header :=
    "<" +:+ format_level (level d) +:+ "|" +:+ format_code (code d) +:+ "> "
        +:+ message d +:+ str1 LF in
  let out := fst (default_diagnostic_callback_run c d) in
  ((exists method, In (method, header) out)
   <-> (level d = Fatal \/ level d = Error \/ level d = Warning))
  /\ (level d = Fatal -> head out = Some (printFatal, header))
  /\ (level d = Error -> head out = Some (printError, header))
  /\ (level d = Warning -> head out = Some (printWarning, header))
  /\ (level d = Info ->
      Forall (fun call => head_char (snd call) <> Some "<"%char) out
      /\ forall loc source st pointer,
          location d = Some loc ->
          getSource (src_manager c) (sourceID loc) = Some source ->
          scan_source (list_ascii_of_string (data source)) loc = Ok st ->
          pointer_str loc (point_collumn st) (line_str st) = Ok pointer ->
          In (printInfo, pointer) out)
  /\ completed (default_diagnostic_callback_run c d) = default_diagnostic_callback c d.
Proof.
  intros header out.
  destruct (after_header_heads c d) as (rest & Hout & Hrest & Hptr).
  fold out in Hout. change header with (diagnostic_message d).
  split; [|split; [|split; [|split; [|split]]]].
  - split.
    + intros (method & Hin). rewrite Hout in Hin. apply in_app_or in Hin as [Hin|Hin].
      * unfold print_header in Hin. destruct (level d); auto. destruct Hin.
      * rewrite Forall_forall in Hrest.
        apply (proj2 (list_elem_of_In _ _)) in Hin. apply Hrest in Hin.
        cbn in Hin. rewrite diagnostic_message_head in Hin. congruence.
    + intros Hlvl. rewrite Hout. unfold print_header.
      destruct (level d); [eexists; left; reflexivity ..|].
      destruct Hlvl as [Hl|[Hl|Hl]]; discriminate.
  - intros Hlvl. rewrite Hout. unfold print_header. rewrite Hlvl. reflexivity.
  - intros Hlvl. rewrite Hout. unfold print_header. rewrite Hlvl. reflexivity.
  - intros Hlvl. rewrite Hout. unfold print_header. rewrite Hlvl. reflexivity.
  - intros Hlvl. rewrite Hout. unfold print_header. rewrite Hlvl. cbn [app]. split.
    + exact Hrest.
    + intros loc source st pointer Hd Hsrc Hscan Hp.
      specialize (Hptr loc source st pointer Hd Hsrc Hscan Hp).
      rewrite Hlvl in Hptr. exact Hptr.
  - apply default_diagnostic_callback_run_completed.
Qed.

Lemma header_only_above_info_witness :
  default_diagnostic_callback_run (F := Scenario.plain_formatters)
                                  Scenario.span_context Scenario.info_diagnostic
  = ([ (printGray, str1 TAB +:+ "span.x:2:3" +:+ str1 LF);
       (printGray, str1 TAB +:+ "2 | xyz" +:+ str1 LF);
       (printGray, str1 TAB +:+ "  | ");
       (printInfo, "^^^" +:+ str1 LF) ], Ok tt)
  /\ ~ (exists method,
          In (method, "<Info|X> note" +:+ str1 LF)
             (fst (default_diagnostic_callback_run (F := Scenario.plain_formatters)
                     Scenario.span_context Scenario.info_diagnostic)))
  /\ In (printInfo, "^^^" +:+ str1 LF)
        (fst (default_diagnostic_callback_run (F := Scenario.plain_formatters)
                Scenario.span_context Scenario.info_diagnostic)).
Proof.
  split; [vm_compute; reflexivity|].
  destruct (header_only_above_info (F := Scenario.plain_formatters)
              Scenario.span_context Scenario.info_diagnostic)
    as (Hiff & _ & _ & _ & Hinfo & _).
  split.
  - intros Hin. apply Hiff in Hin. cbn in Hin.
    destruct Hin as [Hl|[Hl|Hl]]; discriminate.
  - destruct (Hinfo eq_refl) as [_ Hptr].
    eapply (Hptr Scenario.span_location Scenario.span_source);
      [reflexivity | reflexivity | vm_compute; reflexivity | vm_compute; reflexivity].
Defined.

(** * Further properties of the driver *)

(** ** Stage entry points *)

(** X2. Once the fail condition is up, a single-threaded stage runs no task: it
    only appends its tasks to the queue and returns, whatever the fuel. *)
Theorem stage_after_failure_only_enqueues `{FS : FileSystem} `{H : Header} `{T : Tokenizer}
        (c : Context) (fuel : nat) (file_paths : list string) :
  isSingleThreaded c = true ->
  task_group_running c = false ->
  hit_fail_condition c = true ->
  loadFiles fuel file_paths c
  = Ok (set_tasks (tasks c ++ map LoadFileTask file_paths) c)
  /\ tokenizeLoadedFiles fuel c
     = Ok (set_tasks (tasks c ++ map (fun s => TokenizeFileTask (getID s)) (src_manager c)) c).
Proof.
  intros Hst Hg Hf. split.
  - rewrite loadFiles_unfold by assumption.
    rewrite consume_loop_exit by (right; exact Hf). cbn [mbind result_bind].
    destruct c; cbn in *; subst; reflexivity.
  - rewrite tokenizeLoadedFiles_unfold by assumption.
    rewrite consume_loop_exit by (right; exact Hf). cbn [mbind result_bind].
    destruct c; cbn in *; subst; reflexivity.
Qed.

Lemma stage_after_failure_only_enqueues_witness :
  loadFiles (FS := Scenario.disk) (H := Scenario.forwarding_header)
            (T := Scenario.silent_tokenizer) 0 ["b.x"] Scenario.aborted
  = Ok (set_tasks [LoadFileTask "a.x"; LoadFileTask "b.x"] Scenario.aborted).
Proof.
  apply (stage_after_failure_only_enqueues
           (FS := Scenario.disk) (H := Scenario.forwarding_header)
           (T := Scenario.silent_tokenizer) Scenario.aborted 0 ["b.x"]
           eq_refl eq_refl eq_refl).
Defined.



(** X4. In multi-threaded mode with the pool running, a stage entry point runs
    nothing itself: [loadFiles] marks the group running and appends one
    [LoadFile] task per path, in order; [tokenizeLoadedFiles] appends one
    [TokenizeFile] task per source, in the order of the sources and with
    their identifiers. Sources, counters and flags are left as they were. *)
Theorem multi_threaded_stage_only_enqueues `{FS : FileSystem} `{H : Header} `{T : Tokenizer}
        (c : Context) (fuel : nat) (file_paths : list string) :
  isMultiThreaded c = true ->
  workers c <> 0 ->
  shutting_down_threads c = false ->
  task_group_running c = false ->
  loadFiles fuel file_paths c
  = Ok (set_tasks (tasks c ++ map LoadFileTask file_paths) (set_task_group_running true c))
  /\ tokenizeLoadedFiles fuel c
     = Ok (set_tasks (tasks c ++ map TokenizeFileTask (map id (src_manager c)))
                     (set_task_group_running true c)).
Proof.
  intros Hmt Hw Hs Hg. unfold isMultiThreaded in Hmt. apply negb_true_iff in Hmt. split.
  - unfold loadFiles, threadsRunning, isMultiThreaded. rewrite Hmt, Hs, Hg. cbn.
    rewrite bool_decide_eq_false_2 by exact Hw. cbn.
    change (isSingleThreaded (set_tasks _ _)) with (isSingleThreaded c). rewrite Hmt.
    destruct c; reflexivity.
  - unfold tokenizeLoadedFiles. rewrite Hg. cbn.
    change (isSingleThreaded (set_tasks _ _)) with (isSingleThreaded c). rewrite Hmt.
    rewrite map_map. reflexivity.
Qed.

Lemma multi_threaded_stage_only_enqueues_witness :
  tokenizeLoadedFiles (FS := Scenario.disk) (H := Scenario.forwarding_header)
                      (T := Scenario.silent_tokenizer) 0 Scenario.pool_ready
  = Ok (set_tasks [TokenizeFileTask 0; TokenizeFileTask 1]
                  (set_task_group_running true Scenario.pool_ready)).
Proof.
  apply (multi_threaded_stage_only_enqueues
           (FS := Scenario.disk) (H := Scenario.forwarding_header)
           (T := Scenario.silent_tokenizer) Scenario.pool_ready 0 []
           eq_refl ltac:(discriminate) eq_refl eq_refl).
Defined.

(** ** [notify_task_errored] *)

(** X5. In multi-threaded mode every call of [notify_task_errored] made while
    the budget is spent spawns one more detached shutdown helper: [n] calls
    spawn [n] helpers. In single-threaded mode none is ever spawned. The
    error count is not touched by any of them. *)
Theorem notify_spawns_a_helper_per_call (c : Context) (n : nat) :
  (maxNumErrors (config c) <= num_errors c)%N ->
  num_errors (Nat.iter n notify_task_errored c) = num_errors c
  /\ (0 < n -> hit_fail_condition (Nat.iter n notify_task_errored c) = true)
  /\ (isMultiThreaded c = true ->
      shutdown_helpers (Nat.iter n notify_task_errored c) = shutdown_helpers c + n)
  /\ (isSingleThreaded c = true ->
      shutdown_helpers (Nat.iter n notify_task_errored c) = shutdown_helpers c).
Proof.
  intros Hspent.
  assert (Hstep : forall c0, (maxNumErrors (config c0) <= num_errors c0)%N ->
            config (notify_task_errored c0) = config c0
            /\ num_errors (notify_task_errored c0) = num_errors c0
            /\ hit_fail_condition (notify_task_errored c0) = true
            /\ shutdown_helpers (notify_task_errored c0)
               = if isMultiThreaded c0 then S (shutdown_helpers c0) else shutdown_helpers c0).
  { intros c0 H0. unfold notify_task_errored, hasHitFailCondition.
    apply N.leb_le in H0. rewrite H0. cbn.
    change (isMultiThreaded (set_hit_fail_condition true c0)) with (isMultiThreaded c0).
    destruct (isMultiThreaded c0); cbn; auto. }
  assert (Hall : config (Nat.iter n notify_task_errored c) = config c
                 /\ num_errors (Nat.iter n notify_task_errored c) = num_errors c
                 /\ (0 < n -> hit_fail_condition (Nat.iter n notify_task_errored c) = true)
                 /\ shutdown_helpers (Nat.iter n notify_task_errored c)
                    = if isMultiThreaded c then shutdown_helpers c + n else shutdown_helpers c).
  { induction n as [|n IH].
    - change (Nat.iter 0 notify_task_errored c) with c.
      repeat split; auto; try (intros Hn; exfalso; lia); destruct (isMultiThreaded c); lia.
    - change (Nat.iter (S n) notify_task_errored c)
        with (notify_task_errored (Nat.iter n notify_task_errored c)).
      destruct IH as (Hc & Hn & _ & Hh).
      destruct (Hstep (Nat.iter n notify_task_errored c)) as (Hc' & Hn' & Hf' & Hh').
      { rewrite Hc, Hn. exact Hspent. }
      rewrite Hc', Hn', Hh'. repeat split; auto; try congruence.
      unfold isMultiThreaded, isSingleThreaded in *. rewrite Hc, Hh.
      destruct (negb _); lia. }
  destruct Hall as (_ & Hn & Hf & Hh).
  split; [exact Hn|]. split; [exact Hf|]. split.
  - intros Hmt. rewrite Hh, Hmt. reflexivity.
  - intros Hst. rewrite Hh. unfold isMultiThreaded. rewrite Hst. reflexivity.
Qed.

Lemma notify_spawns_a_helper_per_call_witness :
  shutdown_helpers (Nat.iter 3 notify_task_errored Scenario.pool_failed) = 4.
Proof.
  destruct (notify_spawns_a_helper_per_call Scenario.pool_failed 3)
    as (_ & _ & Hmt & _).
  - cbn. lia.
  - exact (Hmt eq_refl).
Defined.

(** ** [optimalNumThreads] *)

(** X6. [optimalNumThreads] is one less than the hardware concurrency, except
    that a reported concurrency of zero wraps to [2^32 - 1]; on a machine
    with one hardware thread the suggestion is zero, which configures a
    single-threaded context. *)
Theorem optimalNumThreads_wraps_at_zero (hardware_concurrency : N) :
  (hardware_concurrency < two32)%N ->
  optimalNumThreads hardware_concurrency
  = (if (hardware_concurrency =? 0)%N then 4294967295 else hardware_concurrency - 1)%N
  /\ (forall c, numThreads (config c) = optimalNumThreads hardware_concurrency ->
                 isSingleThreaded c = true <-> hardware_concurrency = 1%N).
Proof.
  intros Hlt. unfold optimalNumThreads, two32 in *.
  assert (Heq : ((hardware_concurrency + 4294967296 - 1) mod 4294967296
                 = if (hardware_concurrency =? 0) then 4294967295
                   else hardware_concurrency - 1)%N).
  { destruct (N.eqb_spec hardware_concurrency 0) as [->|Hne]; [reflexivity|].
    replace (hardware_concurrency + 4294967296 - 1)%N
      with ((hardware_concurrency - 1) + 1 * 4294967296)%N by lia.
    rewrite N.Div0.mod_add. apply N.mod_small. lia. }
  split; [exact Heq|].
  intros c Hc. unfold isSingleThreaded. rewrite Hc, Heq.
  destruct (N.eqb_spec hardware_concurrency 0) as [->|Hne]; cbn.
  - split; discriminate.
  - rewrite N.eqb_eq. lia.
Qed.

Lemma optimalNumThreads_wraps_at_zero_witness :
  optimalNumThreads 0 = 4294967295%N /\ optimalNumThreads 8 = 7%N.
Proof.
  split.
  - apply (optimalNumThreads_wraps_at_zero 0). reflexivity.
  - apply (optimalNumThreads_wraps_at_zero 8). reflexivity.
Defined.

(** ** Loading a list of paths, some of which fail *)

Section MixedLoads.
Context `{FS : FileSystem} `{H : Header} `{T : Tokenizer}.
Context (HL : HeaderLaws).

Lemma failures_cons (p : string) (rest : list string) :
  failures (p :: rest) = (if is_readable p then failures rest else failures rest + 1)%N.
Proof.
  unfold failures. cbn. destruct (is_readable p); [reflexivity|]. cbn [length]. lia.
Qed.

(** The sources of [loaded_from] carry the readable paths, in order, under
    consecutive identifiers. *)
Lemma loaded_from_dense (file_paths : list string) :
  forall base,
    map path (loaded_from base file_paths) = List.filter is_readable file_paths
    /\ map id (loaded_from base file_paths)
       = seq base (length (List.filter is_readable file_paths)).
Proof.
  induction file_paths as [|p rest IH]; intros base; cbn; [auto|].
  destruct (is_readable p); cbn.
  - destruct (IH (S base)) as [-> ->]. auto.
  - apply IH.
Qed.

(** The drain works through a prefix of loads that stays under the budget:
    afterwards the queue holds what followed the prefix, and the loop goes
    on from there. *)
Lemma drain_loads_prefix (pre : list string) (rest_tasks : list Task) :
  forall w c,
    isSingleThreaded c = true ->
    hit_fail_condition c = false ->
    tasks c = map LoadFileTask pre ++ rest_tasks ->
    (num_errors c + failures pre < maxNumErrors (config c))%N ->
    exists w1 c1,
      (forall fuel, consume_loop (length pre + fuel) w c = consume_loop fuel w1 c1)
      /\ tasks c1 = rest_tasks
      /\ src_manager c1 = src_manager c ++ loaded_from (length (src_manager c)) pre
      /\ num_errors c1 = (num_errors c + failures pre)%N
      /\ hit_fail_condition c1 = false
      /\ errors_of (delivered c1) = errors_of (delivered c) ++ load_errors pre
      /\ config c1 = config c
      /\ task_group_running c1 = task_group_running c.
Proof.
  induction pre as [|p pre IH]; intros w c Hst Hf Htasks Hbudget.
  - exists w, c. cbn. rewrite !app_nil_r. unfold failures. cbn.
    repeat split; auto. lia.
  - cbn [map app] in Htasks. rewrite failures_cons in Hbudget.
    destruct (is_readable p) eqn:Hp.
    + destruct (get_task_load_success HL w c p _ Hst Htasks Hp) as (ds & Hstep & Hq).
      match type of Hstep with
      | _ = Ok (_, ?c0) =>
          destruct (IH (mkWorker false) c0 Hst Hf eq_refl Hbudget)
            as (w1 & c1 & Hloop & Ht & Hs & Hn & Hf1 & He & Hc & Hg)
      end.
      exists w1, c1. split.
      * intros fuel. cbn [length plus].
        rewrite consume_loop_iterate by (rewrite ?Htasks; congruence).
        rewrite Hstep. cbn [mbind result_bind]. apply Hloop.
      * rewrite Ht, Hs, Hn, Hf1, He, Hc, Hg. cbn. rewrite Hp, failures_cons, Hp.
        rewrite length_app, Nat.add_1_r, <- app_assoc, errors_of_app, Hq, app_nil_r.
        repeat split; reflexivity.
    + pose proof (get_task_load_failure HL w c p _ Hst Htasks Hp) as Hstep.
      match type of Hstep with
      | _ = Ok (_, notify_task_errored ?c0) =>
          destruct (notify_task_errored_fields c0)
            as ((Hc0 & _ & _ & Ht0 & Hs0 & Hg0) & Hn0 & Hd0 & Hf0);
          assert (Hf2 : hit_fail_condition (notify_task_errored c0) = false);
          [|destruct (IH (mkWorker false) (notify_task_errored c0))
              as (w1 & c1 & Hloop & Ht & Hs & Hn & Hf1 & He & Hc & Hg)]
      end.
      * destruct (hit_fail_condition (notify_task_errored _)); [|reflexivity].
        destruct (proj1 Hf0 eq_refl) as [Hup|Hup]; cbn in Hup; [congruence | lia].
      * unfold isSingleThreaded in *. rewrite Hc0. exact Hst.
      * exact Hf2.
      * rewrite Ht0. reflexivity.
      * rewrite Hn0, Hc0. cbn. lia.
      * exists w1, c1. split.
        -- intros fuel. cbn [length plus].
           rewrite consume_loop_iterate by (rewrite ?Htasks; congruence).
           rewrite Hstep. cbn [mbind result_bind]. apply Hloop.
        -- rewrite Ht, Hs, Hn, Hf1, He, Hc, Hg, Hs0, Hn0, Hd0, Hc0, Hg0. cbn.
           rewrite Hp, failures_cons, Hp, errors_of_app, <- app_assoc.
           repeat split; try reflexivity. lia.
Qed.

End MixedLoads.

(** The load stage on an idle context, with room in the budget for every
    failing path. *)
Lemma load_stage_spec
        `{FS : FileSystem} `{H : Header} `{T : Tokenizer}
        (c : Context) (file_paths : list string) (fuel : nat) :
  HeaderLaws ->
  isSingleThreaded c = true ->
  task_group_running c = false ->
  tasks c = [] ->
  hit_fail_condition c = false ->
  (num_errors c + failures file_paths < maxNumErrors (config c))%N ->
  length file_paths <= fuel ->
  exists c',
    loadFiles fuel file_paths c = Ok c'
    /\ src_manager c' = src_manager c ++ loaded_from (length (src_manager c)) file_paths
    /\ map path (src_manager c')
       = map path (src_manager c) ++ List.filter is_readable file_paths
    /\ map id (src_manager c')
       = map id (src_manager c)
         ++ seq (length (src_manager c)) (length (List.filter is_readable file_paths))
    /\ num_errors c' = (num_errors c + failures file_paths)%N
    /\ errors_of (delivered c') = errors_of (delivered c) ++ load_errors file_paths
    /\ tasks c' = []
    /\ hit_fail_condition c' = false
    /\ task_group_running c' = false
    /\ config c' = config c.
Proof.
  intros HL Hst Hg Hempty Hf Hbudget Hfuel.
  rewrite loadFiles_unfold by assumption.
  match goal with
  | |- context [consume_loop fuel ?w ?c0] =>
      destruct (drain_loads_prefix HL file_paths [] w c0)
        as (w1 & c1 & Hloop & Ht & Hs & Hn & Hf1 & He & Hc & Hg1)
  end.
  - exact Hst.
  - exact Hf.
  - cbn. rewrite Hempty, app_nil_r. reflexivity.
  - exact Hbudget.
  - replace fuel with (length file_paths + (fuel - length file_paths)) by lia.
    rewrite Hloop. rewrite consume_loop_exit by (left; exact Ht).
    cbn [mbind result_bind]. eexists. split; [reflexivity|].
    cbn in Hs, Hn, He, Hc |- *. rewrite Hs, Hn, He, Ht, Hf1, Hc, !map_app.
    destruct (loaded_from_dense file_paths (length (src_manager c))) as [-> ->].
    repeat split; reflexivity.
Qed.

(** X7. [loadFiles] in single-threaded mode on an idle context, with fewer
    failing paths than the budget leaves room for: every path is processed,
    the manager gains exactly the readable paths, in the order given and
    under consecutive identifiers (a failed load leaves no gap),
    [num_errors] grows by the number of failing paths, the error diagnostics
    are one per failing path in order ([MiscFileDoesNotExist] for a missing
    file, [MiscLoadFileFailed] otherwise), and no fail condition is raised. *)
Theorem loads_with_failures_under_budget
        `{FS : FileSystem} `{H : Header} `{T : Tokenizer}
        (c : Context) (file_paths : list string) (fuel : nat) :
  HeaderLaws ->
  isSingleThreaded c = true ->
  task_group_running c = false ->
  tasks c = [] ->
  hit_fail_condition c = false ->
  (num_errors c + failures file_paths < maxNumErrors (config c))%N ->
  length file_paths <= fuel ->
  exists c',
    loadFiles fuel file_paths c = Ok c'
    /\ src_manager c' = src_manager c ++ loaded_from (length (src_manager c)) file_paths
    /\ map path (src_manager c')
       = map path (src_manager c) ++ List.filter is_readable file_paths
    /\ map id (src_manager c')
       = map id (src_manager c)
         ++ seq (length (src_manager c)) (length (List.filter is_readable file_paths))
    /\ num_errors c' = (num_errors c + failures file_paths)%N
    /\ errors_of (delivered c') = errors_of (delivered c) ++ load_errors file_paths
    /\ tasks c' = []
    /\ hit_fail_condition c' = false
    /\ task_group_running c' = false.
Proof.
  intros HL Hst Hg Hempty Hf Hbudget Hfuel.
  destruct (load_stage_spec c file_paths fuel HL Hst Hg Hempty Hf Hbudget Hfuel)
    as (c' & Hrun & Hs & Hp & Hi & Hn & He & Ht & Hf' & Hg' & _).
  exists c'. auto 10.
Qed.

Lemma loads_with_failures_under_budget_witness :
  exists c',
    loadFiles (FS := Scenario.disk) (H := Scenario.forwarding_header)
              (T := Scenario.silent_tokenizer)
              3 ["a.x"; "missing.x"; "b.x"] (Scenario.fresh 10) = Ok c'
    /\ map path (src_manager c') = ["a.x"; "b.x"]
    /\ map id (src_manager c') = [0; 1]
    /\ num_errors c' = 1%N.
Proof.
  destruct (loads_with_failures_under_budget
              (FS := Scenario.disk) (H := Scenario.forwarding_header)
              (T := Scenario.silent_tokenizer)
              (Scenario.fresh 10) ["a.x"; "missing.x"; "b.x"] 3
              forwarding_header_laws eq_refl eq_refl eq_refl eq_refl eq_refl (le_n 3))
    as (c' & Hrun & _ & Hp & Hi & Hn & _).
  exists c'. auto.
Defined.

(** X8. The load that spends the budget ends the drain: when the paths before
    [p] leave room for exactly one more error and [p] cannot be loaded, the
    drain stops right after [p] with the fail condition up and [num_errors]
    equal to [maxNumErrors]; the paths after [p] stay in the queue, unrun,
    and the manager holds the readable paths that came before [p]. *)
Theorem budget_spent_stops_the_drain
        `{FS : FileSystem} `{H : Header} `{T : Tokenizer}
        (c : Context) (pre : list string) (p : string) (post : list string) (fuel : nat) :
  HeaderLaws ->
  isSingleThreaded c = true ->
  task_group_running c = false ->
  tasks c = [] ->
  hit_fail_condition c = false ->
  is_readable p = false ->
  (num_errors c + failures pre + 1 = maxNumErrors (config c))%N ->
  length pre < fuel ->
  exists c',
    loadFiles fuel (pre ++ p :: post) c = Ok c'
    /\ tasks c' = map LoadFileTask post
    /\ hit_fail_condition c' = true
    /\ num_errors c' = maxNumErrors (config c)
    /\ src_manager c' = src_manager c ++ loaded_from (length (src_manager c)) pre
    /\ errors_of (delivered c')
       = errors_of (delivered c) ++ load_errors (pre ++ [p])
    /\ task_group_running c' = false.
Proof.
  intros HL Hst Hg Hempty Hf Hp Hbudget Hfuel.
  rewrite loadFiles_unfold by assumption.
  match goal with
  | |- context [consume_loop fuel ?w ?c0] =>
      destruct (drain_loads_prefix HL pre (LoadFileTask p :: map LoadFileTask post) w c0)
        as (w1 & c1 & Hloop & Ht & Hs & Hn & Hf1 & He & Hc & Hg1)
  end.
  - exact Hst.
  - exact Hf.
  - cbn. rewrite Hempty, map_app. reflexivity.
  - cbn. lia.
  - replace fuel with (length pre + S (fuel - S (length pre))) by lia.
    rewrite Hloop.
    assert (Hst1 : isSingleThreaded c1 = true).
    { unfold isSingleThreaded in *. rewrite Hc. exact Hst. }
    rewrite consume_loop_iterate by (rewrite ?Ht; congruence).
    rewrite (get_task_load_failure HL w1 c1 p _ Hst1 Ht Hp). cbn [mbind result_bind].
    match goal with
    | |- context [notify_task_errored ?c0] =>
        destruct (notify_task_errored_fields c0)
          as ((Hc0 & _ & _ & Ht0 & Hs0 & Hg0) & Hn0 & Hd0 & Hf0);
        assert (Hup : hit_fail_condition (notify_task_errored c0) = true)
    end.
    { apply Hf0. right. cbn. rewrite Hc, Hn. cbn. lia. }
    rewrite consume_loop_exit by (right; exact Hup).
    cbn [mbind result_bind]. eexists. split; [reflexivity|].
    cbn [tasks hit_fail_condition num_errors config src_manager delivered
         task_group_running set_task_group_running].
    rewrite Ht0, Hup, Hn0, Hs0, Hd0. cbn.
    rewrite Hn, Hs, errors_of_app, He. cbn.
    assert (Herr : load_errors (pre ++ [p])
                   = load_errors pre
                     ++ [mkDiagnostic Error (load_failure_code p) None
                           (load_failure_message p) []]).
    { clear -Hp. induction pre as [|q pre IH]; cbn.
      - rewrite Hp. reflexivity.
      - destruct (is_readable q); [exact IH | rewrite IH; reflexivity]. }
    rewrite Herr, app_assoc. repeat split; try reflexivity. lia.
Qed.

Lemma budget_spent_stops_the_drain_witness :
  exists c',
    loadFiles (FS := Scenario.disk) (H := Scenario.forwarding_header)
              (T := Scenario.silent_tokenizer)
              3 (["missing.x"; "a.x"] ++ "gone.x" :: ["b.x"]) (Scenario.fresh 2) = Ok c'
    /\ tasks c' = [LoadFileTask "b.x"]
    /\ hit_fail_condition c' = true
    /\ num_errors c' = 2%N.
Proof.
  destruct (budget_spent_stops_the_drain
              (FS := Scenario.disk) (H := Scenario.forwarding_header)
              (T := Scenario.silent_tokenizer)
              (Scenario.fresh 2) ["missing.x"; "a.x"] "gone.x" ["b.x"] 3
              forwarding_header_laws eq_refl eq_refl eq_refl eq_refl eq_refl eq_refl
              (le_n 3))
    as (c' & Hrun & Ht & Hf & Hn & _).
  exists c'. auto.
Defined.

(** ** What a run does to the sources *)

Section SourcesKept.
Context `{FS : FileSystem} `{H : Header} `{T : Tokenizer}.
Context (HL : HeaderLaws) (TL : TokenizerLaws).

(** A task keeps every source in its place, with its identifier, path and
    data; and it keeps identifiers equal to positions. *)
Lemma run_task_keeps_sources (t : Task) (c c' : Context) :
  run_task t c = Ok c' ->
  (forall i s, src_manager c !! i = Some s ->
               exists s', src_manager c' !! i = Some s' /\ same_file s s')
  /\ (ids_are_positions (src_manager c) -> ids_are_positions (src_manager c'))
  /\ length (src_manager c) <= length (src_manager c').
Proof.
  intros Hrun. destruct t as [p|sid].
  - unfold run_task, visit in Hrun. destruct (is_readable p) eqn:Hp.
    + destruct (run_load_file_success HL p c Hp) as (ds & Heq & _).
      rewrite Heq in Hrun. inversion Hrun; subst c'; clear Hrun. cbn.
      split; [|split].
      * intros i s Hi. exists s. split; [|repeat split].
        apply lookup_app_l_Some. exact Hi.
      * intros Hids i s Hi. apply lookup_app_Some in Hi as [Hi | [Hge Hi]].
        -- apply (Hids i s Hi).
        -- apply list_lookup_singleton_Some in Hi as [Hz <-]. cbn. lia.
      * rewrite length_app. lia.
    + rewrite (run_load_file_failure HL p c Hp) in Hrun.
      inversion Hrun; subst c'; clear Hrun.
      match goal with
      | |- context [notify_task_errored ?c0] =>
          destruct (notify_task_errored_fields c0) as ((_ & _ & _ & _ & Hs & _) & _)
      end.
      rewrite Hs. cbn. split; [|split; [auto | lia]].
      intros i s Hi. exists s. split; [exact Hi | repeat split].
  - apply (run_task_tokenize_inversion HL TL) in Hrun as (_ & _ & Hcases).
    destruct Hcases as [(tb & s0 & _ & Hsrc & Heq) | (_ & Heq)]; rewrite Heq.
    + split; [|split].
      * intros i s Hi. destruct (decide (i = sid)) as [->|Hne].
        -- rewrite list_lookup_insert_eq by (eapply lookup_lt_Some; exact Hsrc).
           eexists. split; [reflexivity|].
           assert (Some s0 = Some s) as Hsame by (rewrite <- Hi; symmetry; exact Hsrc).
           inversion Hsame; subst s0.
           repeat split.
        -- rewrite list_lookup_insert_ne by congruence.
           exists s. split; [exact Hi | repeat split].
      * intros Hids i s Hi. destruct (decide (i = sid)) as [->|Hne].
        -- rewrite list_lookup_insert_eq in Hi by (eapply lookup_lt_Some; exact Hsrc).
           inversion Hi; subst s. cbn. apply (Hids sid s0 Hsrc).
        -- rewrite list_lookup_insert_ne in Hi by congruence. apply (Hids i s Hi).
      * rewrite length_insert. lia.
    + split; [|split; [auto | lia]].
      intros i s Hi. exists s. split; [exact Hi | repeat split].
Qed.

Lemma step_keeps_sources (c c' : Context) :
  step c c' ->
  (forall i s, src_manager c !! i = Some s ->
               exists s', src_manager c' !! i = Some s' /\ same_file s s')
  /\ (ids_are_positions (src_manager c) -> ids_are_positions (src_manager c'))
  /\ length (src_manager c) <= length (src_manager c').
Proof.
  intros Hstep.
  assert (Hsame : forall l : list Source,
             (forall i s, l !! i = Some s -> exists s', l !! i = Some s' /\ same_file s s')
             /\ (ids_are_positions l -> ids_are_positions l)
             /\ length l <= length l).
  { intros l. split; [|split; [auto | lia]].
    intros i s Hi. exists s. split; [exact Hi | repeat split]. }
  destruct Hstep as [c paths Hg | c Hg | c c' w w' Hne Hf Hget | c]; try apply Hsame.
  apply get_task_inversion in Hget as (t & rest & Ht & _ & Hrun); [|exact Hne].
  apply run_task_keeps_sources in Hrun. exact Hrun.
Qed.

End SourcesKept.

Lemma sources_kept_along_run `{FS : FileSystem} `{H : Header} `{T : Tokenizer}
      (c c' : Context) (i : nat) (s : Source) :
  HeaderLaws -> TokenizerLaws ->
  rtc step c c' ->
  src_manager c !! i = Some s ->
  exists s', src_manager c' !! i = Some s' /\ same_file s s'.
Proof.
  intros HL TL Hrun. revert s.
  induction Hrun as [c|c1 c2 c3 Hstep Hrest IH]; intros s Hi.
  - exists s. split; [exact Hi | repeat split].
  - destruct (step_keeps_sources HL TL c1 c2 Hstep) as (Hkeep & _).
    destruct (Hkeep i s Hi) as (s2 & Hi2 & Hid & Hpath & Hdata).
    destruct (IH s2 Hi2) as (s3 & Hi3 & Hid3 & Hpath3 & Hdata3).
    exists s3. split; [exact Hi3|]. unfold same_file. repeat split; congruence.
Qed.

(** X9. Throughout a single-threaded run no source is removed, moved or changed
    in its identifier, path or data: a source found at position [i] is
    still at position [i] later, with at most another token buffer. *)
Theorem sources_are_kept `{FS : FileSystem} `{H : Header} `{T : Tokenizer}
        (c c' : Context) (i : nat) (s : Source) :
  HeaderLaws -> TokenizerLaws ->
  rtc step c c' ->
  src_manager c !! i = Some s ->
  exists s', src_manager c' !! i = Some s' /\ same_file s s'.
Proof.
  intros HL TL Hrun Hi. eapply sources_kept_along_run; eassumption.
Qed.

Lemma sources_are_kept_witness :
  exists s',
    src_manager Scenario.two_tokenized !! 1 = Some s'
    /\ same_file (mkSource 1 "b.x" "beta" TokenBuf.empty) s'.
Proof.
  assert (Hrun : tokenizeLoadedFiles
                   (FS := Scenario.disk) (H := Scenario.forwarding_header)
                   (T := Scenario.size_tokenizer) 2 Scenario.two_loaded
                 = Ok Scenario.two_tokenized) by reflexivity.
  apply (sources_are_kept
           (FS := Scenario.disk) (H := Scenario.forwarding_header)
           (T := Scenario.size_tokenizer)
           Scenario.two_loaded Scenario.two_tokenized 1 _
           forwarding_header_laws size_tokenizer_laws
           (tokenizeLoadedFiles_is_a_run 2 Scenario.two_loaded Scenario.two_tokenized
              eq_refl Hrun)
           eq_refl).
Defined.

(** X10. Identifiers equal to positions is an invariant of every single-threaded
    run, and the number of sources never shrinks. *)
Theorem ids_stay_positions `{FS : FileSystem} `{H : Header} `{T : Tokenizer}
        (c c' : Context) :
  HeaderLaws -> TokenizerLaws ->
  ids_are_positions (src_manager c) ->
  rtc step c c' ->
  ids_are_positions (src_manager c')
  /\ length (src_manager c) <= length (src_manager c').
Proof.
  intros HL TL Hids Hrun.
  induction Hrun as [c|c1 c2 c3 Hstep Hrest IH]; [auto|].
  destruct (step_keeps_sources HL TL c1 c2 Hstep) as (_ & Hpos & Hlen).
  destruct (IH (Hpos Hids)) as [Hids3 Hlen3]. split; [exact Hids3 | lia].
Qed.

Lemma ids_stay_positions_witness :
  exists c',
    loadFiles (FS := Scenario.disk) (H := Scenario.forwarding_header)
              (T := Scenario.silent_tokenizer) 1 ["a.x"] Scenario.one_loaded = Ok c'
    /\ map id (src_manager Scenario.one_loaded) = [0]
    /\ map id (src_manager c') = [0; 1]
    /\ ids_are_positions (src_manager c')
    /\ length (src_manager Scenario.one_loaded) <= length (src_manager c').
Proof.
  assert (Hids : ids_are_positions (src_manager Scenario.one_loaded)).
  { intros [|i] s Hi; cbn in Hi; inversion Hi; reflexivity. }
  assert (Hrun : loadFiles (FS := Scenario.disk) (H := Scenario.forwarding_header)
                           (T := Scenario.silent_tokenizer)
                           1 ["a.x"] Scenario.one_loaded
                 = Ok (mkContext (Scenario.single_threaded 10) 0 false []
                         [mkSource 0 "exists.x" "one" TokenBuf.empty;
                          mkSource 1 "a.x" "alpha" TokenBuf.empty]
                         0%N false false [] 0)) by reflexivity.
  eexists. split; [exact Hrun|]. split; [reflexivity|]. split; [reflexivity|].
  apply (ids_stay_positions
           (FS := Scenario.disk) (H := Scenario.forwarding_header)
           (T := Scenario.silent_tokenizer)
           Scenario.one_loaded _
           forwarding_header_laws silent_tokenizer_laws Hids).
  apply (loadFiles_is_a_run 1 ["a.x"] Scenario.one_loaded _ eq_refl Hrun).
Defined.

(** ** A pool worker *)

(** X11. [Worker::get_task] does not look at the fail condition: with a load
    that fails at the front of the queue it pops it, counts the error and
    stays [is_working], whatever the flag. If the budget was already spent,
    [num_errors] thereby passes [maxNumErrors], and one more shutdown helper
    is spawned. On an empty queue it clears [task_group_running] and goes
    idle. *)
Theorem worker_ignores_fail_condition `{FS : FileSystem} `{H : Header} `{T : Tokenizer}
        (w : Worker) (c : Context) (p : string) (rest : list Task) :
  HeaderLaws ->
  isMultiThreaded c = true ->
  is_readable p = false ->
  (tasks c = LoadFileTask p :: rest ->
   exists c',
     get_task w c = Ok (mkWorker true, c')
     /\ tasks c' = rest
     /\ num_errors c' = (num_errors c + 1)%N
     /\ config c' = config c
     /\ ((maxNumErrors (config c) <= num_errors c)%N ->
         hit_fail_condition c' = true
         /\ (maxNumErrors (config c') < num_errors c')%N
         /\ shutdown_helpers c' = S (shutdown_helpers c)))
  /\ (tasks c = [] ->
      get_task w c = Ok (mkWorker false, set_task_group_running false c)).
Proof.
  intros HL Hmt Hp. unfold get_task. rewrite Hmt. cbn [debugAssert mbind result_bind].
  split; intros Htasks; rewrite Htasks; [|reflexivity].
  unfold run_task, visit. rewrite (run_load_file_failure HL) by exact Hp.
  cbn [mbind result_bind]. eexists. split; [reflexivity|].
  match goal with
  | |- context [notify_task_errored ?c0] =>
      destruct (notify_task_errored_fields c0)
        as ((Hc0 & _ & _ & Ht0 & _) & Hn0 & _ & Hf0)
  end.
  rewrite Ht0, Hn0, Hc0. cbn. repeat split; auto.
  - apply Hf0. right. cbn. lia.
  - lia.
  - unfold notify_task_errored, hasHitFailCondition. cbn.
    assert (Hle : (maxNumErrors (config c) <=? num_errors c + 1)%N = true)
      by (apply N.leb_le; lia).
    rewrite Hle. cbn.
    change (isMultiThreaded (set_hit_fail_condition _ _)) with (isMultiThreaded c).
    rewrite Hmt. reflexivity.
Qed.

Lemma worker_ignores_fail_condition_witness :
  exists c',
    get_task (FS := Scenario.disk) (H := Scenario.forwarding_header)
             (T := Scenario.silent_tokenizer) (mkWorker false) Scenario.pool_failed
    = Ok (mkWorker true, c')
    /\ tasks c' = []
    /\ num_errors c' = 11%N.
Proof.
  destruct (worker_ignores_fail_condition
              (FS := Scenario.disk) (H := Scenario.forwarding_header)
              (T := Scenario.silent_tokenizer) (mkWorker false)
              Scenario.pool_failed "missing.x" []
              forwarding_header_laws eq_refl eq_refl) as [Hpop _].
  destruct (Hpop eq_refl) as (c' & Hrun & Ht & Hn & _).
  exists c'. auto.
Defined.

(** * Further properties of the renderer *)

Lemma scan_reads_bounded_witness :
  Forall (fun i => i <= 3)
         [0; 0; 0; 0; 0; 1; 1; 1; 2; 2; 2; 3; 3].
Proof.
  exact (scan_reads_bounded
           (list_ascii_of_string (data Scenario.unterminated)) (Scenario.first_column 1)
           (mkLineScan (mkScan 3 [0; 0; 0; 0; 0; 1; 1; 1; 2; 2; 2; 3; 3])
                       ["a"; "b"; "c"]%char 1%N false)
           eq_refl).
Defined.

(** ** The second loop: the displayed line *)

Lemma char_at_drop (bytes : list ascii) (c : nat) :
  (c < length bytes ->
   drop c bytes = char_at bytes c :: drop (S c) bytes)
  /\ (length bytes <= c -> drop c bytes = [] /\ char_at bytes c = NUL).
Proof.
  split.
  - intros Hlt. destruct (lookup_lt_is_Some_2 bytes c Hlt) as [a Ha].
    unfold char_at. rewrite Ha. cbn. apply drop_S. exact Ha.
  - intros Hge. split; [apply drop_ge; exact Hge|].
    unfold char_at. rewrite lookup_ge_None_2 by exact Hge. reflexivity.
Qed.

Lemma size_t_minus_zero (x : N) : (x < two64)%N -> size_t_minus x 0 = x.
Proof.
  intros Hx. unfold size_t_minus, two64 in *.
  rewrite Z.sub_0_r, Z.mod_small by lia. apply N2Z.id.
Qed.

Lemma size_t_minus_succ (x : N) (n : nat) :
  (x < two64)%N ->
  size_t_minus ((x + two64 - 1) mod two64)%N n = size_t_minus x (S n).
Proof.
  intros Hx. unfold size_t_minus, two64 in *. f_equal.
  rewrite N2Z.inj_mod, Zminus_mod_idemp_l.
  replace (Z.of_N (x + 18446744073709551616 - 1) - Z.of_nat n)%Z
    with ((Z.of_N x - Z.of_nat (S n)) + 1 * Z.of_N 18446744073709551616)%Z by lia.
  apply Z_mod_plus_full.
Qed.

(** The second loop from any state: it stops at the first terminator or at
    the end of the text; with [remove_whitespace] set it skips the leading
    blanks and moves the column back by one for each, otherwise it copies. *)
Lemma get_line_spec (bytes : list ascii) :
  forall fuel st,
    length bytes - cursor (scan st) < fuel ->
    (point_collumn st < two64)%N ->
    exists st',
      get_line fuel bytes st = Ok st'
      /\ cursor (scan st')
         = cursor (scan st) + length (up_to_terminator (drop (cursor (scan st)) bytes))
      /\ (remove_whitespace st = true ->
          line_str st'
          = line_str st
            ++ drop (leading_blanks (up_to_terminator (drop (cursor (scan st)) bytes)))
                    (up_to_terminator (drop (cursor (scan st)) bytes))
          /\ point_collumn st'
             = size_t_minus (point_collumn st)
                 (leading_blanks (up_to_terminator (drop (cursor (scan st)) bytes))))
      /\ (remove_whitespace st = false ->
          line_str st' = line_str st ++ up_to_terminator (drop (cursor (scan st)) bytes)
          /\ point_collumn st' = point_collumn st).
Proof.
  induction fuel as [|fuel IH]; intros st Hfuel Hpc; [lia|].
  cbn [get_line].
  destruct (char_at_drop bytes (cursor (scan st))) as [Hin Hout].
  destruct (le_lt_dec (length bytes) (cursor (scan st))) as [Hge|Hlt].
  - destruct (Hout Hge) as [Hdrop Hnul]. rewrite Hdrop, Hnul.
    rewrite bool_decide_eq_false_2 by lia. cbn.
    eexists. split; [reflexivity|]. cbn. rewrite !app_nil_r, Nat.add_0_r.
    split; [reflexivity|]. split; intros _; split; try reflexivity.
    symmetry. apply size_t_minus_zero. exact Hpc.
  - rewrite (Hin Hlt). set (a := char_at bytes (cursor (scan st))).
    rewrite bool_decide_eq_true_2 by exact Hlt. rewrite andb_true_r.
    cbn [up_to_terminator]. unfold is_terminator.
    destruct (Ascii.eqb a LF) eqn:Ea; cbn [negb andb orb].
    { eexists. split; [reflexivity|]. cbn. rewrite !app_nil_r, Nat.add_0_r.
      split; [reflexivity|]. split; intros _; split; try reflexivity.
      symmetry. apply size_t_minus_zero. exact Hpc. }
    destruct (Ascii.eqb a CR) eqn:Eb; cbn [negb andb orb].
    { eexists. split; [reflexivity|]. cbn. rewrite !app_nil_r, Nat.add_0_r.
      split; [reflexivity|]. split; intros _; split; try reflexivity.
      symmetry. apply size_t_minus_zero. exact Hpc. }
    change (Ascii.eqb a TAB || Ascii.eqb a SPACE) with (is_blank a).
    destruct (remove_whitespace st && is_blank a) eqn:Eskip.
    + apply andb_prop in Eskip as [Hrw Hblank].
      match goal with
      | |- context [get_line fuel bytes ?st1] =>
          destruct (IH st1) as (st' & Hrun & Hcur & Htrue & _)
      end.
      * cbn. lia.
      * cbn. apply N.mod_lt. discriminate.
      * exists st'. split; [exact Hrun|]. cbn in Hcur, Htrue.
        rewrite Nat.add_1_r in Hcur, Htrue.
        split; [rewrite Hcur; cbn; lia|].
        split; [|rewrite Hrw; discriminate].
        intros _. destruct (Htrue Hrw) as [Hline Hcol].
        cbn [leading_blanks]. rewrite Hblank. cbn [drop].
        split; [exact Hline|]. rewrite Hcol. apply size_t_minus_succ. exact Hpc.
    + match goal with
      | |- context [get_line fuel bytes ?st1] =>
          destruct (IH st1) as (st' & Hrun & Hcur & _ & Hfalse)
      end.
      * cbn. lia.
      * exact Hpc.
      * exists st'. split; [exact Hrun|]. cbn in Hcur, Hfalse.
        rewrite Nat.add_1_r in Hcur, Hfalse.
        destruct (Hfalse eq_refl) as [Hline Hcol].
        split; [rewrite Hcur; cbn; lia|].
        rewrite Hline, Hcol, <- app_assoc. cbn [app].
        split; intros Hrw; split; try reflexivity.
        -- rewrite Hrw in Eskip. cbn in Eskip. cbn [leading_blanks]. rewrite Eskip.
           reflexivity.
        -- rewrite Hrw in Eskip. cbn in Eskip. cbn [leading_blanks]. rewrite Eskip.
           symmetry. apply size_t_minus_zero. exact Hpc.
Qed.

Lemma up_to_terminator_clean (l : list ascii) :
  Forall (fun a => is_terminator a = false) (up_to_terminator l).
Proof.
  induction l as [|a l IH]; cbn; [constructor|].
  destruct (is_terminator a) eqn:Ha; constructor; assumption.
Qed.

Lemma drop_leading_blanks_head (l : list ascii) :
  match drop (leading_blanks l) l with
  | [] => True
  | a :: _ => is_blank a = false
  end.
Proof.
  induction l as [|a l IH]; cbn; [exact I|].
  destruct (is_blank a) eqn:Ha; cbn; [exact IH | exact Ha].
Qed.

(** ** The first loop: finding the line *)

(** When the first loop completes it either did not run, or it has moved the
    cursor forward to just behind a line terminator. *)
Lemma find_line_lands (bytes : list ascii) (line_start : N) :
  forall fuel current_line s s',
    find_line fuel bytes line_start current_line s = Ok s' ->
    ((line_start <= current_line)%N /\ s' = s)
    \/ ((current_line < line_start)%N
        /\ cursor s < cursor s'
        /\ is_terminator (char_at bytes (cursor s' - 1)) = true).
Proof.
  induction fuel as [|fuel IH]; intros current_line s s' Hrun; cbn in Hrun.
  - destruct (N.ltb_spec current_line line_start) as [Hlt|Hge]; [discriminate|].
    inversion Hrun; subst. left. auto.
  - destruct (N.ltb_spec current_line line_start) as [Hlt|Hge];
      [|inversion Hrun; subst; left; auto].
    right. split; [exact Hlt|].
    unfold debugAssert in Hrun. case_bool_decide as Hin; [|discriminate]. cbn in Hrun.
    unfold is_terminator.
    destruct (Ascii.eqb (char_at bytes (cursor s)) LF) eqn:E1.
    { apply IH in Hrun as [[_ ->] | (_ & Hc & Ht)]; cbn in *.
      - rewrite Nat.add_sub, E1. split; [lia | reflexivity].
      - split; [lia | exact Ht]. }
    destruct (Ascii.eqb (char_at bytes (cursor s)) CR) eqn:E2.
    { apply IH in Hrun as [[_ ->] | (_ & Hc & Ht)]; cbn in *.
      - destruct (Ascii.eqb (char_at bytes (cursor s + 1)) LF) eqn:E3.
        + rewrite Nat.add_sub, E3. split; [lia | reflexivity].
        + rewrite Nat.add_sub, E1, E2. split; [lia | reflexivity].
      - split; [|exact Ht].
        destruct (Ascii.eqb (char_at bytes (cursor s + 1)) LF); lia. }
    apply IH in Hrun as [[Hge _] | (_ & Hc & Ht)]; cbn in *; [lia|].
    split; [lia | exact Ht].
Qed.

(** The first loop never gets further in lines than it has consumed bytes. *)
Lemma find_line_lines_le_bytes (bytes : list ascii) (line_start : N) :
  forall fuel current_line s s',
    find_line fuel bytes line_start current_line s = Ok s' ->
    cursor s <= cursor s'
    /\ ((line_start <= current_line)%N
        \/ (line_start <= current_line + N.of_nat (cursor s' - cursor s))%N).
Proof.
  induction fuel as [|fuel IH]; intros current_line s s' Hrun; cbn in Hrun.
  - destruct (N.ltb_spec current_line line_start) as [Hlt|Hge]; [discriminate|].
    inversion Hrun; subst. auto.
  - destruct (N.ltb_spec current_line line_start) as [Hlt|Hge];
      [|inversion Hrun; subst; auto].
    unfold debugAssert in Hrun. case_bool_decide as Hin; [|discriminate]. cbn in Hrun.
    destruct (Ascii.eqb (char_at bytes (cursor s)) LF).
    { apply IH in Hrun as [Hc Hl]. cbn in *. split; [lia|]. right. lia. }
    destruct (Ascii.eqb (char_at bytes (cursor s)) CR).
    { apply IH in Hrun as [Hc Hl]. cbn in *.
      destruct (Ascii.eqb (char_at bytes (cursor s + 1)) LF);
        (split; [lia|]); right; lia. }
    apply IH in Hrun as [Hc Hl]. cbn in *. split; [lia|]. right. lia.
Qed.

(** With fuel beyond the bytes that are left, the first loop does not run
    out of fuel. *)
Lemma find_line_has_fuel (bytes : list ascii) (line_start : N) :
  forall fuel current_line s,
    length bytes - cursor s < fuel ->
    find_line fuel bytes line_start current_line s <> OutOfFuel.
Proof.
  induction fuel as [|fuel IH]; intros current_line s Hfuel; [lia|].
  cbn. destruct (current_line <? line_start)%N; [|discriminate].
  unfold debugAssert. case_bool_decide as Hin; cbn; [|discriminate].
  destruct (Ascii.eqb (char_at bytes (cursor s)) LF); [apply IH; cbn; lia|].
  destruct (Ascii.eqb (char_at bytes (cursor s)) CR); [|apply IH; cbn; lia].
  apply IH. cbn. destruct (Ascii.eqb (char_at bytes (cursor s + 1)) LF); lia.
Qed.

Lemma get_line_has_fuel (bytes : list ascii) :
  forall fuel st,
    length bytes - cursor (scan st) < fuel ->
    get_line fuel bytes st <> OutOfFuel.
Proof.
  induction fuel as [|fuel IH]; intros st Hf; [lia|].
  cbn [get_line]. destruct (_ && _ && bool_decide _) eqn:Hcond; [|discriminate].
  apply andb_prop in Hcond as [_ Hlt]. apply bool_decide_eq_true in Hlt.
  destruct (remove_whitespace st && _); apply IH; cbn; lia.
Qed.

Lemma scan_source_has_fuel (bytes : list ascii) (loc : Location) :
  scan_source bytes loc <> OutOfFuel.
Proof.
  unfold scan_source.
  destruct (find_line (S (length bytes)) bytes (lineStart loc) 1 (mkScan 0 []))
    as [s| | |] eqn:Hfind; cbn [mbind result_bind].
  - apply get_line_has_fuel. cbn. lia.
  - discriminate.
  - exfalso. revert Hfind. apply find_line_has_fuel. cbn. lia.
  - discriminate.
Qed.

(** Neither loop throws. *)
Lemma find_line_not_terminated (bytes : list ascii) (line_start : N) :
  forall fuel current_line s,
    find_line fuel bytes line_start current_line s <> Terminated.
Proof.
  induction fuel as [|fuel IH]; intros current_line s; cbn;
    destruct (current_line <? line_start)%N; try discriminate.
  unfold debugAssert. case_bool_decide as Hin; cbn; [|discriminate].
  destruct (Ascii.eqb (char_at bytes (cursor s)) LF); [apply IH|].
  destruct (Ascii.eqb (char_at bytes (cursor s)) CR); apply IH.
Qed.

Lemma get_line_not_terminated (bytes : list ascii) :
  forall fuel st, get_line fuel bytes st <> Terminated.
Proof.
  induction fuel as [|fuel IH]; intros st; cbn [get_line];
    destruct (_ && _ && bool_decide _); try discriminate.
  destruct (remove_whitespace st && _); apply IH.
Qed.

Lemma scan_source_not_terminated (bytes : list ascii) (loc : Location) :
  scan_source bytes loc <> Terminated.
Proof.
  unfold scan_source.
  destruct (find_line (S (length bytes)) bytes (lineStart loc) 1 (mkScan 0 []))
    as [s| | |] eqn:Hfind; cbn [mbind result_bind]; try discriminate.
  - apply get_line_not_terminated.
  - exfalso. revert Hfind. apply find_line_not_terminated.
Qed.

(** X12. [print_location] always comes to an end: the model never runs out of
    fuel. In a checked build it trips the assertion of the first loop when
    the line asked for is more than one beyond the number of bytes of the
    text (every earlier line needs a terminator of its own); in particular
    for any line but the first of an empty text. *)
Theorem line_beyond_text_trips_assertion (source : Source) (lvl : Level) (loc : Location) :
  (N.of_nat (String.length (data source)) + 1 < lineStart loc)%N ->
  print_location source lvl loc = ContractViolation
  /\ forall source' lvl' loc', print_location source' lvl' loc' <> OutOfFuel.
Proof.
  pose proof scan_source_has_fuel as Hfuel.
  intros Hbeyond. split.
  - unfold print_location.
    assert (Hlen : length (list_ascii_of_string (data source)) = String.length (data source)).
    { clear. induction (data source) as [|a r IH]; cbn; [reflexivity | rewrite IH; reflexivity]. }
    destruct (scan_source (list_ascii_of_string (data source)) loc) as [st| | |] eqn:Hscan.
    + exfalso. unfold scan_source in Hscan.
      apply bind_Ok in Hscan as (s & Hfind & _).
      pose proof Hfind as Hbound.
      apply find_line_bounded in Hbound as [Hc _]; cbn; [|lia|constructor].
      apply find_line_lines_le_bytes in Hfind as [_ Hl]. cbn in Hl. lia.
    + reflexivity.
    + exfalso. exact (Hfuel _ _ Hscan).
    + exfalso. exact (scan_source_not_terminated _ _ Hscan).
  - intros source' lvl' loc'. unfold print_location.
    destruct (scan_source _ loc') as [st| | |] eqn:Hscan; cbn [mbind result_bind];
      try discriminate.
    + unfold pointer_str. destruct (string_limit <=? _)%N; discriminate.
    + exfalso. exact (Hfuel _ _ Hscan).
Qed.

Lemma line_beyond_text_trips_assertion_witness :
  print_location (mkSource 0 "empty.x" EmptyString TokenBuf.empty) Error
                 (Scenario.first_column 2)
  = ContractViolation.
Proof.
  apply (line_beyond_text_trips_assertion
           (mkSource 0 "empty.x" EmptyString TokenBuf.empty) Error (Scenario.first_column 2)).
  reflexivity.
Defined.

(** ** The two loops together *)

(** What [scan_source] computes, in terms of the text: the line starts at
    the beginning of the text or just behind a terminator, the displayed
    line is that line up to its terminator without its leading blanks, and
    the column has been decremented once per blank removed. *)
Lemma scan_source_spec (bytes : list ascii) (loc : Location) (st : LineScan) :
  scan_source bytes loc = Ok st ->
  (collumnStart loc < two64)%N ->
  exists start,
    (start = 0 \/ (0 < start /\ is_terminator (char_at bytes (start - 1)) = true))
    /\ ((lineStart loc <= 1)%N -> start = 0)
    /\ start <= length bytes
    /\ line_str st
       = drop (leading_blanks (up_to_terminator (drop start bytes)))
              (up_to_terminator (drop start bytes))
    /\ point_collumn st
       = size_t_minus (collumnStart loc)
           (leading_blanks (up_to_terminator (drop start bytes)))
    /\ cursor (scan st) = start + length (up_to_terminator (drop start bytes)).
Proof.
  unfold scan_source. intros Hscan Hcol.
  apply bind_Ok in Hscan as (s & Hfind & Hget).
  exists (cursor s).
  pose proof (find_line_lands _ _ _ _ _ _ Hfind) as Hland.
  pose proof Hfind as Hbound.
  apply find_line_bounded in Hbound as [Hc _]; cbn; [|lia|constructor].
  destruct (get_line_spec bytes (S (length bytes)) (mkLineScan s [] (collumnStart loc) true))
    as (st' & Hrun & Hcur & Htrue & _); cbn; [lia | exact Hcol |].
  rewrite Hget in Hrun. inversion Hrun; subst st'; clear Hrun.
  destruct (Htrue eq_refl) as [Hline Hpc]. cbn in Hline, Hpc, Hcur.
  split; [|split; [|split; [exact Hc | auto]]].
  - destruct Hland as [[_ ->] | (_ & Hpos & Hterm)]; [left; reflexivity|].
    right. cbn in Hpos. split; [lia | exact Hterm].
  - intros Hfirst. destruct Hland as [[_ ->] | (Hlt & _)]; [reflexivity | lia].
Qed.

(** X13. Whenever the scan of [print_location] completes, the line it displays
    is the line of the text that starts at the beginning or just behind a
    line terminator (at the beginning when the line asked for is 0 or 1),
    cut at its terminator and stripped of its leading tabs and blanks: it
    contains no terminator and does not start with a blank. The caret column
    is the start column less the number of blanks removed, in [size_t]
    arithmetic. *)
Theorem displayed_line_is_trimmed (bytes : list ascii) (loc : Location) (st : LineScan) :
  scan_source bytes loc = Ok st ->
  (collumnStart loc < two32)%N ->
  exists start,
    (start = 0 \/ (0 < start /\ is_terminator (char_at bytes (start - 1)) = true))
    /\ ((lineStart loc <= 1)%N -> start = 0)
    /\ line_str st
       = drop (leading_blanks (up_to_terminator (drop start bytes)))
              (up_to_terminator (drop start bytes))
    /\ point_collumn st
       = size_t_minus (collumnStart loc)
           (leading_blanks (up_to_terminator (drop start bytes)))
    /\ Forall (fun a => is_terminator a = false) (line_str st)
    /\ match line_str st with
       | [] => True
       | a :: _ => is_blank a = false
       end.
Proof.
  intros Hscan Hcol.
  destruct (scan_source_spec bytes loc st Hscan) as (start & Hs & Hfirst & _ & Hline & Hpc & _).
  { unfold two32, two64 in *. lia. }
  exists start. split; [exact Hs|]. split; [exact Hfirst|].
  split; [exact Hline|]. split; [exact Hpc|]. rewrite Hline. split.
  - apply Forall_drop. apply up_to_terminator_clean.
  - apply drop_leading_blanks_head.
Qed.

Lemma displayed_line_is_trimmed_witness :
  exists start,
    (start = 0 \/ (0 < start /\ is_terminator
                                  (char_at (list_ascii_of_string Scenario.two_lines)
                                           (start - 1)) = true))
    /\ ["x"; "y"; "z"]%char
       = drop (leading_blanks
                 (up_to_terminator (drop start (list_ascii_of_string Scenario.two_lines))))
              (up_to_terminator (drop start (list_ascii_of_string Scenario.two_lines))).
Proof.
  destruct (displayed_line_is_trimmed
              (list_ascii_of_string Scenario.two_lines) Scenario.span_location
              (mkLineScan
                 (mkScan 9 [0; 0; 1; 1; 2; 2; 3; 4; 4; 4; 4; 5; 5; 5; 5; 6; 6; 6; 6; 6;
                            7; 7; 7; 8; 8; 8; 9])
                 ["x"; "y"; "z"]%char 1%N false)
              eq_refl eq_refl)
    as (start & Hs & _ & Hline & _).
  exists start. split; [exact Hs | exact Hline].
Defined.

Lemma size_t_minus_small (x : N) (n : nat) :
  (N.of_nat n <= x)%N -> (x < two64)%N -> size_t_minus x n = (x - N.of_nat n)%N.
Proof.
  intros Hn Hx. unfold size_t_minus, two64 in *.
  rewrite Z.mod_small by lia. lia.
Qed.

Lemma size_t_minus_wrapped (x : N) (n : nat) :
  (x < N.of_nat n)%N -> (N.of_nat n < two64)%N ->
  size_t_minus x n = (two64 - (N.of_nat n - x))%N.
Proof.
  intros Hn Hx. unfold size_t_minus, two64 in *.
  replace (Z.of_N x - Z.of_nat n)%Z
    with ((Z.of_N x - Z.of_nat n + Z.of_N 18446744073709551616)
          + (-1) * Z.of_N 18446744073709551616)%Z by lia.
  rewrite Z_mod_plus_full, Z.mod_small by lia. lia.
Qed.

(** The blanks of a line are among its bytes. *)
Lemma leading_blanks_le (bytes : list ascii) (start : nat) :
  leading_blanks (up_to_terminator (drop start bytes)) <= length bytes.
Proof.
  assert (Hb : forall l, leading_blanks l <= length l).
  { induction l as [|a l IH]; cbn; [lia|]. destruct (is_blank a); lia. }
  assert (Hu : forall l, length (up_to_terminator l) <= length l).
  { induction l as [|a l IH]; cbn; [lia|]. destruct (is_terminator a); cbn; lia. }
  specialize (Hb (up_to_terminator (drop start bytes))).
  specialize (Hu (drop start bytes)). rewrite length_drop in Hu. lia.
Qed.

(** The second loop from where the first one has stopped: it completes, the
    displayed line is the line at the cursor without its leading blanks, and
    the column has been decremented once per blank removed. *)
Lemma scan_source_at (bytes : list ascii) (loc : Location) (s : Scan) :
  find_line (S (length bytes)) bytes (lineStart loc) 1 (mkScan 0 []) = Ok s ->
  (collumnStart loc < two64)%N ->
  exists st,
    scan_source bytes loc = Ok st
    /\ line_str st
       = drop (leading_blanks (up_to_terminator (drop (cursor s) bytes)))
              (up_to_terminator (drop (cursor s) bytes))
    /\ point_collumn st
       = size_t_minus (collumnStart loc)
           (leading_blanks (up_to_terminator (drop (cursor s) bytes))).
Proof.
  intros Hfind Hcol. unfold scan_source. rewrite Hfind. cbn [mbind result_bind].
  pose proof Hfind as Hbound.
  apply find_line_bounded in Hbound as [Hc _]; cbn; [|lia|constructor].
  destruct (get_line_spec bytes (S (length bytes)) (mkLineScan s [] (collumnStart loc) true))
    as (st & Hrun & _ & Htrue & _); cbn; [lia | exact Hcol |].
  destruct (Htrue eq_refl) as [Hline Hpc]. cbn in Hline, Hpc.
  exists st. auto.
Qed.

(** X14. The pointer line of a location on one line, in the ordinary case. Let
    the first loop of [print_location] stop at the start of the line asked
    for, and let that line have [b] leading blanks. When the start column
    lies beyond them and the end column is not before it, the scan
    completes, the pointer line is [collumnStart - 1 - b] blanks, then
    [collumnEnd - collumnStart + 1] carets, then a line feed, and it is the
    last text [print_location] prints, on the printer method of the level. *)
Theorem pointer_line_layout (source : Source) (lvl : Level) (loc : Location)
        (bytes : list ascii) (s : Scan) :
  bytes = list_ascii_of_string (data source) ->
  find_line (S (length bytes)) bytes (lineStart loc) 1 (mkScan 0 []) = Ok s ->
  (N.of_nat (leading_blanks (up_to_terminator (drop (cursor s) bytes)))
   < collumnStart loc)%N ->
  lineStart loc = lineEnd loc ->
  (collumnStart loc <= collumnEnd loc)%N ->
  (collumnEnd loc + 1 < two32)%N ->
  exists st calls,
    scan_source bytes loc = Ok st
    /\ pointer_str loc (point_collumn st) (line_str st)
       = Ok (string_of_list_ascii
               (replicate (N.to_nat (collumnStart loc) - 1
                           - leading_blanks (up_to_terminator (drop (cursor s) bytes)))
                          SPACE
                ++ replicate (N.to_nat (collumnEnd loc - collumnStart loc) + 1) "^"%char
                ++ [LF]))
    /\ print_location source lvl loc = Ok calls
    /\ length calls = 4
    /\ last calls
       = Some (level_method lvl,
               string_of_list_ascii
                 (replicate (N.to_nat (collumnStart loc) - 1
                             - leading_blanks (up_to_terminator (drop (cursor s) bytes)))
                            SPACE
                  ++ replicate (N.to_nat (collumnEnd loc - collumnStart loc) + 1) "^"%char
                  ++ [LF])).
Proof.
  intros Hbytes Hfind Hblanks Hline Hcols Hend.
  destruct (scan_source_at bytes loc s Hfind) as (st & Hscan & _ & Hpc).
  { unfold two32, two64 in *. lia. }
  set (b := leading_blanks (up_to_terminator (drop (cursor s) bytes))) in *.
  assert (Hindent : ((point_collumn st + two64 - 1) mod two64
                     = collumnStart loc - N.of_nat b - 1)%N).
  { rewrite Hpc, size_t_minus_small by (unfold two32, two64 in *; lia).
    unfold two32, two64 in *.
    replace (collumnStart loc - N.of_nat b + 18446744073709551616 - 1)%N
      with ((collumnStart loc - N.of_nat b - 1) + 1 * 18446744073709551616)%N by lia.
    rewrite N.Div0.mod_add, N.mod_small by lia. reflexivity. }
  assert (Hptr : pointer_str loc (point_collumn st) (line_str st)
                 = Ok (string_of_list_ascii
                         (replicate (N.to_nat (collumnStart loc) - 1 - b) SPACE
                          ++ replicate (N.to_nat (collumnEnd loc - collumnStart loc) + 1)
                               "^"%char
                          ++ [LF]))).
  { unfold pointer_str. rewrite Hindent.
    destruct (N.leb_spec string_limit (collumnStart loc - N.of_nat b - 1)) as [Hbig|_].
    { exfalso. unfold string_limit, two32 in *. lia. }
    f_equal. unfold pointer_text. rewrite Hline, N.eqb_refl. f_equal. f_equal; [|f_equal].
    - f_equal. unfold pointer_indent. rewrite Hindent. lia.
    - f_equal. unfold single_line_carets, two32 in *. rewrite N.mod_small by lia. lia. }
  exists st. eexists. split; [exact Hscan|]. split; [exact Hptr|].
  unfold print_location. rewrite <- Hbytes, Hscan. cbn [mbind result_bind].
  rewrite Hptr. cbn [mbind result_bind].
  split; [reflexivity|]. split; reflexivity.
Qed.

Lemma pointer_line_layout_witness :
  exists calls,
    print_location Scenario.span_source Warning Scenario.span_location = Ok calls
    /\ last calls = Some (printWarning, "^^^" +:+ str1 LF).
Proof.
  destruct (pointer_line_layout
              Scenario.span_source Warning Scenario.span_location
              (list_ascii_of_string Scenario.two_lines)
              (mkScan 4 [0; 0; 1; 1; 2; 2; 3])
              eq_refl eq_refl ltac:(vm_compute; reflexivity) eq_refl
              ltac:(cbn; lia) ltac:(cbn; unfold two32; lia))
    as (st & calls & _ & _ & Hprint & _ & Hlast).
  exists calls. split; [exact Hprint | exact Hlast].
Defined.

(** X15. A start column that does not lie beyond the leading blanks of its line
    (column 0, or a column inside the indentation) ends the process. Let the
    first loop stop at the start of the line asked for, let that line have
    [b] leading blanks with [collumnStart <= b], and let the text be shorter
    than [2^63] bytes. Then the scan completes, the decrements of the
    [size_t] column wrap, the pointer line is asked for
    [2^64 - 1 - (b - collumnStart)] blanks, which no string can hold, and
    [print_location] is terminated after it has printed the file position,
    the line and the spacer, before any pointer line. *)
Theorem column_in_indentation_terminates (source : Source) (lvl : Level) (loc : Location)
        (bytes : list ascii) (s : Scan) :
  bytes = list_ascii_of_string (data source) ->
  find_line (S (length bytes)) bytes (lineStart loc) 1 (mkScan 0 []) = Ok s ->
  (collumnStart loc
   <= N.of_nat (leading_blanks (up_to_terminator (drop (cursor s) bytes))))%N ->
  (N.of_nat (length bytes) < string_limit)%N ->
  exists st,
    scan_source bytes loc = Ok st
    /\ ((point_collumn st + two64 - 1) mod two64
        = two64 - 1
          - (N.of_nat (leading_blanks (up_to_terminator (drop (cursor s) bytes)))
             - collumnStart loc))%N
    /\ pointer_str loc (point_collumn st) (line_str st) = Terminated
    /\ print_location source lvl loc = Terminated
    /\ print_location_run source lvl loc
       = ([ (printGray,
             str1 TAB +:+ getLocationAsString source +:+ ":" +:+ to_string (lineStart loc)
               +:+ ":" +:+ to_string (collumnStart loc) +:+ str1 LF);
            (printGray,
             str1 TAB +:+ to_string (lineStart loc) +:+ " | "
               +:+ string_of_list_ascii (line_str st) +:+ str1 LF);
            (printGray,
             str1 TAB
               +:+ string_of_list_ascii
                     (replicate (String.length (to_string (lineStart loc))) SPACE)
               +:+ " | ") ],
          Terminated).
Proof.
  intros Hbytes Hfind Hinside Hshort.
  pose proof (leading_blanks_le bytes (cursor s)) as Hle.
  destruct (scan_source_at bytes loc s Hfind) as (st & Hscan & _ & Hpc).
  { unfold string_limit, two64 in *. lia. }
  set (b := leading_blanks (up_to_terminator (drop (cursor s) bytes))) in *.
  assert (Hindent : ((point_collumn st + two64 - 1) mod two64
                     = two64 - 1 - (N.of_nat b - collumnStart loc))%N).
  { rewrite Hpc.
    destruct (N.eq_dec (collumnStart loc) (N.of_nat b)) as [Heq|Hne].
    - rewrite size_t_minus_small by (unfold string_limit, two64 in *; lia).
      rewrite Heq, N.sub_diag. unfold two64. reflexivity.
    - rewrite size_t_minus_wrapped by (unfold string_limit, two64 in *; lia).
      unfold string_limit, two64 in *.
      replace (18446744073709551616 - (N.of_nat b - collumnStart loc)
               + 18446744073709551616 - 1)%N
        with ((18446744073709551616 - 1 - (N.of_nat b - collumnStart loc))
              + 1 * 18446744073709551616)%N by lia.
      rewrite N.Div0.mod_add, N.mod_small by lia. reflexivity. }
  assert (Hptr : pointer_str loc (point_collumn st) (line_str st) = Terminated).
  { unfold pointer_str. rewrite Hindent.
    destruct (N.leb_spec string_limit (two64 - 1 - (N.of_nat b - collumnStart loc)))
      as [_|Hsmall]; [reflexivity|].
    exfalso. unfold string_limit, two64 in *. lia. }
  exists st. split; [exact Hscan|]. split; [exact Hindent|]. split; [exact Hptr|]. split.
  - unfold print_location. rewrite <- Hbytes, Hscan. cbn [mbind result_bind].
    rewrite Hptr. reflexivity.
  - unfold print_location_run, and_then, say, quiet. cbn [fst snd].
    rewrite <- Hbytes, Hscan. cbn [fst snd]. rewrite Hptr. reflexivity.
Qed.

Lemma column_in_indentation_terminates_witness :
  print_location Scenario.span_source Error (mkLocation 0 2 1 2 1) = Terminated
  /\ print_location_run Scenario.span_source Error (mkLocation 0 2 1 2 1)
     = ([ (printGray, str1 TAB +:+ "span.x:2:1" +:+ str1 LF);
          (printGray, str1 TAB +:+ "2 | xyz" +:+ str1 LF);
          (printGray, str1 TAB +:+ "  | ") ], Terminated).
Proof.
  destruct (column_in_indentation_terminates
              Scenario.span_source Error (mkLocation 0 2 1 2 1)
              (list_ascii_of_string Scenario.two_lines)
              (mkScan 4 [0; 0; 1; 1; 2; 2; 3])
              eq_refl eq_refl ltac:(vm_compute; discriminate)
              ltac:(vm_compute; reflexivity))
    as (st & _ & _ & _ & Hprint & _).
  split; [exact Hprint | vm_compute; reflexivity].
Defined.

(** ** The notes of a diagnostic *)

Lemma print_location_not_cyan (source : Source) (lvl : Level) (loc : Location)
      (calls : list PrintCall) :
  print_location source lvl loc = Ok calls -> List.filter on_cyan calls = [].
Proof.
  unfold print_location. intros Hp.
  apply bind_Ok in Hp as (st & _ & Hp).
  apply bind_Ok in Hp as (pointer & _ & Hp). inversion Hp; subst calls.
  destruct lvl; reflexivity.
Qed.

Section Notes.
Context `{F : Formatters}.

Lemma print_source_location_not_cyan (c : Context) (lvl : Level) (loc : Location)
      (calls : list PrintCall) :
  print_source_location c lvl loc = Ok calls -> List.filter on_cyan calls = [].
Proof.
  unfold print_source_location.
  destruct (getSource (src_manager c) (sourceID loc)); [|discriminate].
  apply print_location_not_cyan.
Qed.

Lemma print_infos_cyan (c : Context) (infs : list DiagnosticInfo) :
  forall calls,
    print_infos c infs = Ok calls ->
    List.filter on_cyan calls
    = map (fun info => (printCyan,
                        str1 TAB +:+ "<Info> " +:+ info_message info +:+ str1 LF)) infs.
Proof.
  induction infs as [|info rest IH]; intros calls Hp; cbn [print_infos] in Hp.
  - inversion Hp. reflexivity.
  - apply bind_Ok in Hp as (here & Hhere & Hp).
    apply bind_Ok in Hp as (later & Hlater & Hp). inversion Hp; subst calls; clear Hp.
    cbn [List.filter on_cyan fst map]. f_equal.
    rewrite List.filter_app.
    assert (Hquiet : List.filter on_cyan here = []).
    { destruct (info_location info) as [loc|].
      - exact (print_source_location_not_cyan c Info loc here Hhere).
      - inversion Hhere. reflexivity. }
    transitivity ([] ++ List.filter on_cyan later);
      [f_equal; exact Hquiet | exact (IH later Hlater)].
Qed.

End Notes.

(** X16. Whenever the default callback completes, the texts it sent to
    [printCyan] are exactly one [<Info>] line per note of the diagnostic, in
    the order of the notes and whatever the level of the diagnostic; nothing
    else is printed in cyan. *)
Theorem every_note_is_printed_once `{F : Formatters}
        (c : Context) (d : Diagnostic) (out : list PrintCall) :
  default_diagnostic_callback c d = Ok out ->
  List.filter on_cyan out
  = map (fun info => (printCyan,
                      str1 TAB +:+ "<Info> " +:+ info_message info +:+ str1 LF))
        (infos d).
Proof.
  unfold default_diagnostic_callback. intros Hcb.
  apply bind_Ok in Hcb as (located & Hloc & Hcb).
  apply bind_Ok in Hcb as (informed & Hinf & Hcb). inversion Hcb; subst out; clear Hcb.
  rewrite !List.filter_app.
  assert (Hhead : List.filter on_cyan (print_header d) = []).
  { unfold print_header. destruct (level d); reflexivity. }
  assert (Hlocated : List.filter on_cyan located = []).
  { destruct (location d) as [loc|].
    - eapply print_source_location_not_cyan; exact Hloc.
    - inversion Hloc. reflexivity. }
  transitivity ([] ++ [] ++ List.filter on_cyan informed);
    [f_equal; [exact Hhead | f_equal; exact Hlocated]
    | exact (print_infos_cyan c (infos d) informed Hinf)].
Qed.

Lemma every_note_is_printed_once_witness :
  exists out,
    default_diagnostic_callback (F := Scenario.plain_formatters)
                                Scenario.span_context Scenario.noted_diagnostic = Ok out
    /\ List.filter on_cyan out
       = [ (printCyan, str1 TAB +:+ "<Info> first" +:+ str1 LF);
           (printCyan, str1 TAB +:+ "<Info> second" +:+ str1 LF) ].
Proof.
  destruct (default_diagnostic_callback (F := Scenario.plain_formatters)
              Scenario.span_context Scenario.noted_diagnostic) as [out| | |] eqn:Hrun.
  - exists out. split; [reflexivity|].
    exact (every_note_is_printed_once (F := Scenario.plain_formatters)
             Scenario.span_context Scenario.noted_diagnostic out Hrun).
  - vm_compute in Hrun. discriminate Hrun.
  - vm_compute in Hrun. discriminate Hrun.
  - vm_compute in Hrun. discriminate Hrun.
Defined.

(** * The tokenize stage *)

(** The tokenize stage on an idle context, when it returns with the fail
    condition down. *)
Lemma tokenize_stage_spec `{FS : FileSystem} `{H : Header} `{T : Tokenizer}
        (c c' : Context) (fuel : nat) :
  HeaderLaws -> TokenizerLaws -> deterministic ->
  isSingleThreaded c = true ->
  tasks c = [] ->
  ids_are_positions (src_manager c) ->
  tokenizeLoadedFiles fuel c = Ok c' ->
  hit_fail_condition c' = false ->
  tasks c' = []
  /\ task_group_running c' = false
  /\ length (src_manager c') = length (src_manager c)
  /\ (forall i s, src_manager c !! i = Some s ->
                  exists s', src_manager c' !! i = Some s' /\ same_file s s')
  /\ (forall i s' tb,
        src_manager c' !! i = Some s' ->
        snd (tokenize c' i) = Some tb ->
        token_buffer s' = fst (TokenBuf.move_construct tb)).
Proof.
  intros HL TL TD Hst Hempty Hids Hrun Hclean.
  pose proof (tokenizeLoadedFiles_is_a_run fuel c c' Hst Hrun) as Hsteps.
  destruct (task_group_running c) eqn:Hg.
  { unfold tokenizeLoadedFiles in Hrun. rewrite Hg in Hrun. discriminate. }
  rewrite tokenizeLoadedFiles_unfold in Hrun by assumption.
  apply bind_Ok in Hrun as ([w1 cB] & Hloop & Hend). inversion Hend; subst c'; clear Hend.
  cbn in Hclean.
  eapply (first_drain_settles HL TL TD (length (src_manager c)) 0) in Hloop
    as (Hq & Hc & Hlen & Hids' & Hset); [| | | | |exact Hclean].
  - split; [exact Hq|]. split; [reflexivity|]. split; [exact Hlen|]. split.
    + intros i s Hi. eapply sources_kept_along_run; eassumption.
    + intros i s' tb Hi Htb. cbn in Hi.
      apply (Hset i s' Hi (set_task_group_running false cB) s' tb); auto.
  - cbn. rewrite Hempty. cbn. apply tokenize_tasks_of_positions. exact Hids.
  - reflexivity.
  - exact Hids.
  - intros i s Hlt. lia.
Qed.

(** X17. A single-threaded [tokenizeLoadedFiles] that returns with the fail
    condition down has gone through every source: the queue is empty, the
    sources are as many as before and keep identifier, path and data, and
    every source for which the tokenizer yields a buffer holds exactly that
    buffer (a source the tokenizer rejects keeps the buffer it had). *)
Theorem tokenize_stage_installs_buffers `{FS : FileSystem} `{H : Header} `{T : Tokenizer}
        (c c' : Context) (fuel : nat) :
  HeaderLaws -> TokenizerLaws -> deterministic ->
  isSingleThreaded c = true ->
  tasks c = [] ->
  ids_are_positions (src_manager c) ->
  tokenizeLoadedFiles fuel c = Ok c' ->
  hit_fail_condition c' = false ->
  tasks c' = []
  /\ task_group_running c' = false
  /\ length (src_manager c') = length (src_manager c)
  /\ (forall i s, src_manager c !! i = Some s ->
                  exists s', src_manager c' !! i = Some s' /\ same_file s s')
  /\ (forall i s' tb,
        src_manager c' !! i = Some s' ->
        snd (tokenize c' i) = Some tb ->
        token_buffer s' = fst (TokenBuf.move_construct tb)).
Proof.
  intros HL TL TD. apply tokenize_stage_spec; assumption.
Qed.

Lemma tokenize_stage_installs_buffers_witness :
  length (src_manager Scenario.two_tokenized) = 2
  /\ forall i s' tb,
      src_manager Scenario.two_tokenized !! i = Some s' ->
      snd (tokenize (Tokenizer := Scenario.size_tokenizer) Scenario.two_tokenized i)
      = Some tb ->
      token_buffer s' = fst (TokenBuf.move_construct tb).
Proof.
  assert (Hids : ids_are_positions (src_manager Scenario.two_loaded)).
  { intros [|[|i]] s Hi; cbn in Hi; inversion Hi; reflexivity. }
  assert (Hrun : tokenizeLoadedFiles
                   (FS := Scenario.disk) (H := Scenario.forwarding_header)
                   (T := Scenario.size_tokenizer) 2 Scenario.two_loaded
                 = Ok Scenario.two_tokenized) by reflexivity.
  destruct (tokenize_stage_installs_buffers
              (FS := Scenario.disk) (H := Scenario.forwarding_header)
              (T := Scenario.size_tokenizer)
              Scenario.two_loaded Scenario.two_tokenized 2
              forwarding_header_laws size_tokenizer_laws size_tokenizer_deterministic
              eq_refl eq_refl Hids Hrun eq_refl)
    as (_ & _ & Hlen & _ & Hbuf).
  split; [exact Hlen | exact Hbuf].
Defined.

(** * Loading, then tokenizing *)

Section Pipeline.
Context `{FS : FileSystem} `{H : Header} `{T : Tokenizer}.

Lemma failures_none (file_paths : list string) :
  forallb is_readable file_paths = true -> failures file_paths = 0%N.
Proof.
  unfold failures. induction file_paths as [|p rest IH]; cbn; [reflexivity|].
  intros Hall. apply andb_prop in Hall as [Hp Hrest]. rewrite Hp. exact (IH Hrest).
Qed.

Lemma loaded_from_all_readable (file_paths : list string) :
  forall base,
    forallb is_readable file_paths = true ->
    loaded_from base file_paths
    = imap (fun i p => mkSource (base + i) p (file_contents p) TokenBuf.empty) file_paths.
Proof.
  induction file_paths as [|p rest IH]; intros base Hall; cbn; [reflexivity|].
  apply andb_prop in Hall as [Hp Hrest]. rewrite Hp, Nat.add_0_r. f_equal.
  rewrite (IH (S base) Hrest). apply imap_ext. intros i x _. cbn. f_equal. lia.
Qed.

End Pipeline.

(** X18. The two stages in sequence, single-threaded, on a fresh context and
    paths that all load: if the second stage returns with the fail condition
    down, the manager holds one source per path; the source at position [i]
    has identifier [i], the [i]-th path, that file's contents, and, whenever
    the tokenizer yields a buffer for it, exactly that buffer. *)
Theorem load_then_tokenize `{FS : FileSystem} `{H : Header} `{T : Tokenizer}
        (cfg : Config) (c0 c2 : Context) (file_paths : list string) (fuel : nat) :
  HeaderLaws -> TokenizerLaws -> deterministic ->
  new_Context cfg = Ok c0 ->
  isSingleThreaded c0 = true ->
  forallb is_readable file_paths = true ->
  length file_paths <= fuel ->
  loadFiles fuel file_paths c0 ≫= tokenizeLoadedFiles fuel = Ok c2 ->
  hit_fail_condition c2 = false ->
  length (src_manager c2) = length file_paths
  /\ forall (i : nat) (p : string),
      file_paths !! i = Some p ->
      exists s,
        src_manager c2 !! i = Some s
        /\ id s = i /\ path s = p /\ data s = file_contents p
        /\ forall tb, snd (tokenize c2 i) = Some tb ->
                      token_buffer s = fst (TokenBuf.move_construct tb).
Proof.
  intros HL TL TD Hnew Hst Hall Hfuel Hrun Hclean.
  unfold new_Context in Hnew. apply bind_Ok in Hnew as (u & Hpos & Hnew).
  apply debugAssert_Ok in Hpos. apply N.ltb_lt in Hpos.
  inversion Hnew; subst c0; clear Hnew.
  match goal with
  | _ : isSingleThreaded ?c = true |- _ =>
      destruct (load_stage_spec c file_paths fuel HL Hst eq_refl eq_refl eq_refl)
        as (c1 & Hload & Hs & _ & _ & _ & _ & Ht1 & Hf1 & Hg1 & Hc1)
  end.
  { cbn. rewrite failures_none by exact Hall. lia. }
  { exact Hfuel. }
  rewrite Hload in Hrun. cbn [mbind result_bind] in Hrun.
  cbn in Hs. rewrite loaded_from_all_readable in Hs by exact Hall.
  assert (Hst1 : isSingleThreaded c1 = true).
  { unfold isSingleThreaded in *. rewrite Hc1. exact Hst. }
  assert (Hids : ids_are_positions (src_manager c1)).
  { intros i s Hi. rewrite Hs, list_lookup_imap in Hi.
    apply fmap_Some in Hi as (p & _ & ->). reflexivity. }
  destruct (tokenize_stage_spec c1 c2 fuel HL TL TD Hst1 Ht1 Hids Hrun Hclean)
    as (_ & _ & Hlen & Hkeep & Hbuf).
  split.
  - rewrite Hlen, Hs, length_imap. reflexivity.
  - intros i p Hp.
    assert (Hi : src_manager c1 !! i
                 = Some (mkSource i p (file_contents p) TokenBuf.empty)).
    { rewrite Hs, list_lookup_imap, Hp. reflexivity. }
    destruct (Hkeep i _ Hi) as (s & Hi2 & Hid & Hpath & Hdata).
    exists s. split; [exact Hi2|]. cbn in Hid, Hpath, Hdata.
    split; [exact Hid|]. split; [exact Hpath|]. split; [exact Hdata|].
    intros tb Htb. apply (Hbuf i s tb Hi2 Htb).
Qed.

Lemma load_then_tokenize_witness :
  length (src_manager Scenario.two_tokenized) = 2
  /\ forall (i : nat) (p : string),
      ["a.x"; "b.x"] !! i = Some p ->
      exists s,
        src_manager Scenario.two_tokenized !! i = Some s
        /\ id s = i /\ path s = p
        /\ data s = file_contents (FS := Scenario.disk) p
        /\ forall tb,
            snd (tokenize (Tokenizer := Scenario.size_tokenizer) Scenario.two_tokenized i)
            = Some tb ->
            token_buffer s = fst (TokenBuf.move_construct tb).
Proof.
  assert (Hrun : loadFiles (FS := Scenario.disk) (H := Scenario.forwarding_header)
                           (T := Scenario.size_tokenizer) 2 ["a.x"; "b.x"]
                           (Scenario.fresh 10)
                 ≫= tokenizeLoadedFiles (FS := Scenario.disk)
                       (H := Scenario.forwarding_header)
                       (T := Scenario.size_tokenizer) 2
                 = Ok Scenario.two_tokenized) by reflexivity.
  exact (load_then_tokenize
           (FS := Scenario.disk) (H := Scenario.forwarding_header)
           (T := Scenario.size_tokenizer)
           (Scenario.single_threaded 10) (Scenario.fresh 10) Scenario.two_tokenized
           ["a.x"; "b.x"] 2
           forwarding_header_laws size_tokenizer_laws size_tokenizer_deterministic
           eq_refl eq_refl eq_refl (le_n 2) Hrun eq_refl).
Defined.

(** * The mark of a location that spans lines *)

(** X19. For a location that ends on a later line and a caret column that has
    not wrapped (it is a 32 bit column less the blanks removed, and at least
    1): with the caret column inside the displayed line, the pointer line is
    built and is as long as the displayed line: blanks up to the caret
    column, one caret, and tildes to the end of the line. With the caret
    column behind the last character of the line there is no mark at all,
    only blanks. *)
Theorem multi_line_mark_reaches_line_end (loc : Location) (pc : N) (line : list ascii) :
  lineStart loc <> lineEnd loc ->
  (1 <= pc)%N ->
  (pc < two32)%N ->
  ((pc <= N.of_nat (length line))%N ->
   pointer_str loc pc line
   = Ok (string_of_list_ascii
           (replicate (N.to_nat pc - 1) SPACE
            ++ "^"%char :: replicate (length line - N.to_nat pc) "~"%char ++ [LF]))
   /\ String.length
        (string_of_list_ascii
           (replicate (N.to_nat pc - 1) SPACE
            ++ "^"%char :: replicate (length line - N.to_nat pc) "~"%char ++ [LF]))
      = length line + 1)
  /\ ((N.of_nat (length line) < pc)%N ->
      pointer_str loc pc line
      = Ok (string_of_list_ascii (replicate (N.to_nat pc - 1) SPACE ++ [LF]))).
Proof.
  intros Hlines Hpc Hsize.
  assert (Hneq : (lineStart loc =? lineEnd loc)%N = false) by (apply N.eqb_neq; exact Hlines).
  assert (Hlen : forall l, String.length (string_of_list_ascii l) = length l).
  { induction l as [|a l IH]; cbn; [reflexivity | rewrite IH; reflexivity]. }
  assert (Hmod : ((pc + two64 - 1) mod two64 = pc - 1)%N).
  { unfold two32, two64 in *.
    replace (pc + 18446744073709551616 - 1)%N
      with ((pc - 1) + 1 * 18446744073709551616)%N by lia.
    rewrite N.Div0.mod_add, N.mod_small by lia. reflexivity. }
  assert (Hindent : pointer_indent pc = N.to_nat pc - 1).
  { unfold pointer_indent. rewrite Hmod. lia. }
  assert (Hbuilt : pointer_str loc pc line = Ok (pointer_text loc pc line)).
  { unfold pointer_str. rewrite Hmod.
    destruct (N.leb_spec string_limit (pc - 1)) as [Hbig|_]; [|reflexivity].
    exfalso. unfold string_limit, two32 in *. lia. }
  rewrite Hbuilt. unfold pointer_text. rewrite Hneq, Hindent. unfold multi_line_mark. split.
  - intros Hin.
    replace (N.to_nat (N.of_nat (length line) + 1 - pc))
      with (S (length line - N.to_nat pc)) by lia.
    split; [reflexivity|].
    rewrite Hlen.
    repeat (rewrite ?length_app, ?length_replicate; cbn [length]). lia.
  - intros Hout.
    replace (N.to_nat (N.of_nat (length line) + 1 - pc)) with 0 by lia.
    reflexivity.
Qed.

Lemma multi_line_mark_reaches_line_end_witness :
  pointer_str (mkLocation 0 1 2 3 1) 2 ["a"; "b"; "c"; "d"]%char
  = Ok (string_of_list_ascii
          (replicate (N.to_nat 2 - 1) SPACE
           ++ "^"%char :: replicate (4 - N.to_nat 2) "~"%char ++ [LF]))
  /\ String.length
       (string_of_list_ascii
          (replicate (N.to_nat 2 - 1) SPACE
           ++ "^"%char :: replicate (4 - N.to_nat 2) "~"%char ++ [LF]))
     = 4 + 1.
Proof.
  apply (multi_line_mark_reaches_line_end (mkLocation 0 1 2 3 1) 2 ["a"; "b"; "c"; "d"]%char).
  - discriminate.
  - cbn. lia.
  - reflexivity.
  - cbn. lia.
Defined.
